(** * Passwordless client (src/passwordless.ts)

    A shallow embedding of the WebAuthn ceremony client: the base64url
    codec, the error normalizer, the capability probes and the two
    ceremonies (register, signin), followed by the properties checked
    against the specification.

    Conventions of the model.
    - A JavaScript string is a [string]: a sequence of code units below
      256.  This is the whole domain of [btoa] (which throws on any
      other code unit) and contains every text [atob] accepts.
    - A JavaScript number is a [Z]: integers only.
    - Values are ordinary data: no getters, proxies or user-defined
      [toString]/[toJSON].  An object is its list of own enumerable
      properties in insertion order, keys unique.
    - A call either returns or throws: [Completion]. *)

From Stdlib Require Import String Ascii List ZArith NArith Lia Bool.
From Stdlib.Strings Require Import Byte.
From Stdlib Require Import DecimalString.
Import ListNotations.
Local Open Scope string_scope.
#[local] Set Warnings "-register-all".

(* ================================================================= *)
(** ** JavaScript values *)

Inductive JsValue : Type :=
| JUndefined
| JNull
| JBool (b : bool)
| JNum (n : Z)
| JBigInt (n : Z)
| JStr (s : string)
| JArr (items : list JsValue)
| JObj (props : list (string * JsValue))
| JUint8Array (bytes : list byte)
| JArrayBuffer (bytes : list byte)
| JError (name message : string)
    (* an Error or DOMException instance: [name] and [message] *)
| JFun (source : string) (result : JsValue)
    (* a function of no argument returning [result]; [source] is the
       text [String] gives for it *)
| JCycle (depth : nat).
    (* a reference back to the [depth]-th enclosing array or object: the
       finite presentation of a cyclic structure.  Such values occur as
       what is thrown and caught; the data the ceremonies read into
       (parsed JSON, credentials) has no cycle, and reading a property
       gives the child as it stands. *)

Inductive Completion (A : Type) : Type :=
| Returns (a : A)
| Throws (e : JsValue).
Arguments Returns {A} a.
Arguments Throws {A} e.

(** What a call wrote with [console.error] (one entry per call, the
    arguments in order), next to its result. *)
Definition Logged (A : Type) : Type := (list (list JsValue) * A)%type.

Definition TypeError (msg : string) : JsValue := JError "TypeError" msg.
Definition Error (msg : string) : JsValue := JError "Error" msg.

(* ================================================================= *)
(** ** Platform: [window.btoa] and [window.atob]

    RFC 4648 base64 with the forgiving decoder of the HTML Standard. *)

Definition base64_alphabet : string :=
  "ABCDEFGHIJKLMNOPQRSTUVWXYZabcdefghijklmnopqrstuvwxyz0123456789+/".

Definition sextet_char (n : N) : ascii :=
  match String.get (N.to_nat n) base64_alphabet with
  | Some c => c
  | None => "="%char
  end.

Fixpoint index_of (c : ascii) (s : string) : option N :=
  match s with
  | EmptyString => None
  | String d r =>
      if Ascii.eqb c d then Some 0%N else option_map N.succ (index_of c r)
  end.

Definition char_sextet (c : ascii) : option N := index_of c base64_alphabet.

Local Open Scope N_scope.

(** Three bytes make four sextets; one or two trailing bytes make two or
    three sextets and the rest is "=" padding. *)
Fixpoint btoa (s : string) : string :=
  match s with
  | EmptyString => EmptyString
  | String a EmptyString =>
      let x := N_of_ascii a in
      String (sextet_char (x / 4))
        (String (sextet_char (x mod 4 * 16)) "==")
  | String a (String b EmptyString) =>
      let x := N_of_ascii a in
      let y := N_of_ascii b in
      String (sextet_char (x / 4))
        (String (sextet_char (x mod 4 * 16 + y / 16))
           (String (sextet_char (y mod 16 * 4)) "="))
  | String a (String b (String c r)) =>
      let x := N_of_ascii a in
      let y := N_of_ascii b in
      let z := N_of_ascii c in
      String (sextet_char (x / 4))
        (String (sextet_char (x mod 4 * 16 + y / 16))
           (String (sextet_char (y mod 16 * 4 + z / 64))
              (String (sextet_char (z mod 64)) (btoa r))))
  end.

Definition is_ascii_whitespace (c : ascii) : bool :=
  match N_of_ascii c with
  | 9 | 10 | 12 | 13 | 32 => true
  | _ => false
  end.

Fixpoint strip_whitespace (s : string) : string :=
  match s with
  | EmptyString => EmptyString
  | String c r =>
      if is_ascii_whitespace c then strip_whitespace r
      else String c (strip_whitespace r)
  end.

(** "If data ends with one or two U+003D (=), remove them." *)
Fixpoint drop_padding (s : string) : string :=
  match s with
  | EmptyString => EmptyString
  | String c r =>
      if Ascii.eqb c "=" && (String.eqb r "" || String.eqb r "=")
      then EmptyString
      else String c (drop_padding r)
  end.

Fixpoint sextets (s : string) : option (list N) :=
  match s with
  | EmptyString => Some []
  | String c r =>
      match char_sextet c, sextets r with
      | Some n, Some l => Some (n :: l)
      | _, _ => None
      end
  end.

(** Four sextets give three bytes; a tail of two gives one byte and of
    three gives two, the bits left over being discarded. *)
Fixpoint decode_sextets (l : list N) : string :=
  match l with
  | s1 :: s2 :: s3 :: s4 :: r =>
      String (ascii_of_N (s1 * 4 + s2 / 16))
        (String (ascii_of_N (s2 mod 16 * 16 + s3 / 4))
           (String (ascii_of_N (s3 mod 4 * 64 + s4)) (decode_sextets r)))
  | [s1; s2; s3] =>
      String (ascii_of_N (s1 * 4 + s2 / 16))
        (String (ascii_of_N (s2 mod 16 * 16 + s3 / 4)) EmptyString)
  | [s1; s2] => String (ascii_of_N (s1 * 4 + s2 / 16)) EmptyString
  | _ => EmptyString
  end.

Local Close Scope N_scope.

Definition InvalidCharacterError : JsValue :=
  JError "InvalidCharacterError"
    "The string to be decoded is not correctly encoded.".

Definition atob (data : string) : Completion string :=
  let data := strip_whitespace data in
  let data :=
    if Nat.eqb (String.length data mod 4) 0 then drop_padding data else data in
  if Nat.eqb (String.length data mod 4) 1 then Throws InvalidCharacterError
  else
    match sextets data with
    | None => Throws InvalidCharacterError
    | Some l => Returns (decode_sextets l)
    end.

(* ================================================================= *)
(** ** Codec *)

(** [s.replace(/c/g, d)] for single characters [c] and [d]. *)
Fixpoint replaceAll (c d : ascii) (s : string) : string :=
  match s with
  | EmptyString => EmptyString
  | String x r => String (if Ascii.eqb x c then d else x) (replaceAll c d r)
  end.

(** [s.replace(/=*$/g, '')]: the trailing run of "=" is removed. *)
Fixpoint stripTrailingEquals (s : string) : string :=
  match s with
  | EmptyString => EmptyString
  | String x r =>
      match stripTrailingEquals r with
      | EmptyString => if Ascii.eqb x "=" then EmptyString else String x EmptyString
      | r' => String x r'
      end
  end.

Fixpoint repeat_char (c : ascii) (n : nat) : string :=
  match n with
  | O => EmptyString
  | S k => String c (repeat_char c k)
  end.

(** [s.padEnd(targetLength, c)] for a one-character filler. *)
Definition padEnd (s : string) (targetLength : nat) (c : ascii) : string :=
  s ++ repeat_char c (targetLength - String.length s).

Definition base64ToBase64Url (base64 : string) : string :=
  stripTrailingEquals (replaceAll "/" "_" (replaceAll "+" "-" base64)).

Definition base64UrlToBase64 (base64Url : string) : string :=
  replaceAll "_" "/" (replaceAll "-" "+" base64Url).

Definition decode_type_error_msg : string :=
  "Cannot convert from Base64Url to ArrayBuffer: Input was not of type string".

Definition base64UrlToArrayBuffer (base64UrlString : JsValue)
  : Logged (Completion JsValue) :=
  match base64UrlString with
  | JStr s =>
      let base64Unpadded := base64UrlToBase64 s in
      let paddingNeeded := (4 - String.length base64Unpadded mod 4) mod 4 in
      let base64Padded :=
        padEnd base64Unpadded (String.length base64Unpadded + paddingNeeded) "=" in
      match atob base64Padded with
      | Throws e => ([], Throws e)
      | Returns binary =>
          ([], Returns (JUint8Array
                          (map byte_of_ascii (list_ascii_of_string binary))))
      end
  | _ =>
      ([[JStr decode_type_error_msg; base64UrlString]],
       Throws (TypeError decode_type_error_msg))
  end.

(** [ToNumber] then [ToUint8] on an array element, as [Uint8Array.from]
    applies it.  Exact on numbers, booleans, null, undefined (NaN gives 0)
    and BigInt (a TypeError); text, objects and functions, which convert
    through numeric-literal parsing and [ToPrimitive], are outside what
    the model follows and are taken as NaN. *)
Definition toUint8 (v : JsValue) : Completion byte :=
  let of_Z (z : Z) : byte :=
    match Byte.of_N (Z.to_N (z mod 256)) with Some b => b | None => x00 end in
  match v with
  | JNum z => Returns (of_Z z)
  | JBool true => Returns x01
  | JBigInt _ => Throws (TypeError "Cannot convert a BigInt value to a number")
  | _ => Returns x00
  end.

Fixpoint Uint8Array_from (items : list JsValue) : Completion (list byte) :=
  match items with
  | [] => Returns []
  | v :: r =>
      match toUint8 v with
      | Throws e => Throws e
      | Returns b =>
          match Uint8Array_from r with
          | Throws e => Throws e
          | Returns bs => Returns (b :: bs)
          end
      end
  end.

Definition encode_error_msg : string :=
  "Cannot convert from ArrayBuffer to Base64Url. Input was not of type ArrayBuffer, Uint8Array or Array".

(** The loop [string += String.fromCharCode(uint8Array[i])]. *)
Definition binary_string (bytes : list byte) : string :=
  string_of_list_ascii (map ascii_of_byte bytes).

Definition arrayBufferToBase64Url (buffer : JsValue)
  : Logged (Completion string) :=
  let uint8Array : Logged (Completion (list byte)) :=
    match buffer with
    | JArr items => ([], Uint8Array_from items)
    | JArrayBuffer bytes => ([], Returns bytes)
    | JUint8Array bytes => ([], Returns bytes)
    | _ => ([[JStr encode_error_msg; buffer]], Throws (Error encode_error_msg))
    end in
  match uint8Array with
  | (log, Throws e) => (log, Throws e)
  | (log, Returns bytes) =>
      let base64String := btoa (binary_string bytes) in
      (log, Returns (base64ToBase64Url base64String))
  end.

Definition bytes_of_string (s : string) : list byte :=
  map byte_of_ascii (list_ascii_of_string s).


(** The wire alphabet: A-Z, a-z, 0-9, "-" and "_". *)
Definition is_base64url_char (c : ascii) : bool :=
  let n := N_of_ascii c in
  ((65 <=? n) && (n <=? 90) || (97 <=? n) && (n <=? 122)
   || (48 <=? n) && (n <=? 57) || (n =? 45) || (n =? 95))%N.

Fixpoint all_chars (p : ascii -> bool) (s : string) : bool :=
  match s with
  | EmptyString => true
  | String c r => p c && all_chars p r
  end.

(** The sextets of a text are canonical when the bits of the last
    character that do not reach a whole byte are zero; a lone trailing
    sextet carries no byte at all. *)
Fixpoint canonical_tail (q : list N) : bool :=
  match q with
  | _ :: _ :: _ :: _ :: r => canonical_tail r
  | [_; _; s3] => (s3 mod 4 =? 0)%N
  | [_; s2] => (s2 mod 16 =? 0)%N
  | [_] => false
  | [] => true
  end.

(** Valid wire text: padding-free, over the URL-safe alphabet, of a
    length that is not 1 modulo 4, and canonical. *)
Definition valid_wire_text (T : string) : bool :=
  all_chars is_base64url_char T &&
  match sextets (base64UrlToBase64 T) with
  | Some q => canonical_tail q
  | None => false
  end.

(** The sextets [btoa] writes, before they are mapped to characters. *)
Fixpoint encode_sextets (s : string) : list N :=
  match s with
  | EmptyString => []
  | String a EmptyString =>
      let x := N_of_ascii a in [x / 4; x mod 4 * 16]%N
  | String a (String b EmptyString) =>
      let x := N_of_ascii a in
      let y := N_of_ascii b in
      [x / 4; x mod 4 * 16 + y / 16; y mod 16 * 4]%N
  | String a (String b (String c r)) =>
      let x := N_of_ascii a in
      let y := N_of_ascii b in
      let z := N_of_ascii c in
      (x / 4 :: x mod 4 * 16 + y / 16 :: y mod 16 * 4 + z / 64 :: z mod 64
         :: encode_sextets r)%N
  end.

Fixpoint sextet_chars (q : list N) : string :=
  match q with
  | [] => EmptyString
  | n :: r => String (sextet_char n) (sextet_chars r)
  end.

Definition padding_of (n : nat) : nat := (4 - n mod 4) mod 4.

(** What the two replacements of [base64ToBase64Url] and of
    [base64UrlToBase64] do to one character. *)
Definition url_of_std (c : ascii) : ascii :=
  let c1 := if Ascii.eqb c "+" then "-"%char else c in
  if Ascii.eqb c1 "/" then "_"%char else c1.

Definition std_of_url (c : ascii) : ascii :=
  let c1 := if Ascii.eqb c "-" then "+"%char else c in
  if Ascii.eqb c1 "_" then "/"%char else c1.

Fixpoint map_string (f : ascii -> ascii) (s : string) : string :=
  match s with
  | EmptyString => EmptyString
  | String c r => String (f c) (map_string f r)
  end.

Definition wire_char (c : ascii) : bool :=
  negb (Ascii.eqb c "+") && negb (Ascii.eqb c "/") && negb (Ascii.eqb c "=").

(** The three input shapes [arrayBufferToBase64Url] tells apart with
    [Array.isArray] and [instanceof]. *)
Definition is_buffer_shape (v : JsValue) : bool :=
  match v with
  | JArr _ | JArrayBuffer _ | JUint8Array _ => true
  | _ => false
  end.

(* ================================================================= *)
(** ** Operations on values

    Properties inherited from the built-in prototypes, and [length],
    are not modelled (the client reads none of them by name), apart
    from [name] and [message] of an Error. *)

Definition typeof (v : JsValue) : string :=
  match v with
  | JUndefined => "undefined"
  | JBool _ => "boolean"
  | JNum _ => "number"
  | JBigInt _ => "bigint"
  | JStr _ => "string"
  | JFun _ _ => "function"
  | JNull | JArr _ | JObj _ | JUint8Array _ | JArrayBuffer _
  | JError _ _ | JCycle _ => "object"
  end.

(** [ToBoolean]. *)
Definition truthy (v : JsValue) : bool :=
  match v with
  | JUndefined | JNull => false
  | JBool b => b
  | JNum n | JBigInt n => negb (Z.eqb n 0)
  | JStr s => negb (String.eqb s "")
  | _ => true
  end.

Definition is_nullish (v : JsValue) : bool :=
  match v with
  | JUndefined | JNull => true
  | _ => false
  end.

Definition string_of_Z (n : Z) : string := NilZero.string_of_int (Z.to_int n).
Definition string_of_nat (n : nat) : string := string_of_Z (Z.of_nat n).

Fixpoint lookup (k : string) (props : list (string * JsValue)) : option JsValue :=
  match props with
  | [] => None
  | (k', v) :: r => if String.eqb k k' then Some v else lookup k r
  end.

(** [obj[k] = v] on the property list: in place when [k] is there, at
    the end when it is new. *)
Fixpoint put (k : string) (v : JsValue) (props : list (string * JsValue))
  : list (string * JsValue) :=
  match props with
  | [] => [(k, v)]
  | (k', v') :: r => if String.eqb k k' then (k, v) :: r else (k', v') :: put k v r
  end.

Fixpoint indexed_from (i : nat) (items : list JsValue) : list (string * JsValue) :=
  match items with
  | [] => []
  | v :: r => (string_of_nat i, v) :: indexed_from (S i) r
  end.

Definition number_of_byte (b : byte) : JsValue := JNum (Z.of_N (Byte.to_N b)).

Fixpoint chars_of (s : string) : list JsValue :=
  match s with
  | EmptyString => []
  | String c r => JStr (String c EmptyString) :: chars_of r
  end.

(** The own enumerable properties, as object spread copies them. *)
Definition own_props (v : JsValue) : list (string * JsValue) :=
  match v with
  | JObj props => props
  | JArr items => indexed_from 0 items
  | JStr s => indexed_from 0 (chars_of s)
  | JUint8Array bytes => indexed_from 0 (map number_of_byte bytes)
  | _ => []
  end.

Definition quoted (k : string) : string := "'" ++ k ++ "'".

Definition digit_of (c : ascii) : option nat :=
  let n := nat_of_ascii c in
  if (48 <=? n)%nat && (n <=? 57)%nat then Some (n - 48)%nat else None.

Fixpoint digits_value (s : string) (acc : nat) : option nat :=
  match s with
  | EmptyString => Some acc
  | String c r =>
      match digit_of c with
      | Some d => digits_value r (10 * acc + d)
      | None => None
      end
  end.

(** A property key that is an array index: "0", or digits that do not
    start with "0". *)
Definition parse_index (k : string) : option nat :=
  match k with
  | EmptyString => None
  | String c r =>
      if Ascii.eqb c "0" then (if String.eqb r "" then Some 0%nat else None)
      else digits_value k 0
  end.

(** The own property [k] of [v], if there is one. *)
Definition own_prop (v : JsValue) (k : string) : option JsValue :=
  match v with
  | JObj props => lookup k props
  | JArr items =>
      match parse_index k with
      | Some i => nth_error items i
      | None => None
      end
  | JStr s =>
      match parse_index k with
      | Some i => nth_error (chars_of s) i
      | None => None
      end
  | JUint8Array bytes =>
      match parse_index k with
      | Some i => option_map number_of_byte (nth_error bytes i)
      | None => None
      end
  | JError name message =>
      if String.eqb k "message" then Some (JStr message)
      else if String.eqb k "name" then Some (JStr name)
      else None
  | _ => None
  end.

(** [v[k]]: a TypeError on undefined and null. *)
Definition getProp (v : JsValue) (k : string) : Completion JsValue :=
  match v with
  | JUndefined =>
      Throws (TypeError ("Cannot read properties of undefined (reading " ++ quoted k ++ ")"))
  | JNull =>
      Throws (TypeError ("Cannot read properties of null (reading " ++ quoted k ++ ")"))
  | _ =>
      Returns (match own_prop v k with Some x => x | None => JUndefined end)
  end.

Definition is_object (v : JsValue) : bool :=
  match v with
  | JArr _ | JObj _ | JUint8Array _ | JArrayBuffer _ | JError _ _ | JFun _ _
  | JCycle _ => true
  | _ => false
  end.

(** [k in v]: a TypeError unless [v] is an object. *)
Definition hasProperty (k : string) (v : JsValue) : Completion bool :=
  if is_object v then
    Returns (match own_prop v k with Some _ => true | None => false end)
  else
    Throws (TypeError ("Cannot use 'in' operator to search for " ++ quoted k)).

(** [v[k] = x] in strict mode (the client is a module), giving the
    object after the assignment: a TypeError on undefined, null and
    primitives.  Arrays, buffers, errors and functions take the
    assignment without error; the model keeps no named property on
    them, and the client never assigns to one (it assigns [v.k] only
    after reading a string from [v.k]). *)
Definition setProp (v : JsValue) (k : string) (x : JsValue) : Completion JsValue :=
  match v with
  | JObj props => Returns (JObj (put k x props))
  | JUndefined =>
      Throws (TypeError ("Cannot set properties of undefined (setting " ++ quoted k ++ ")"))
  | JNull =>
      Throws (TypeError ("Cannot set properties of null (setting " ++ quoted k ++ ")"))
  | JBool _ | JNum _ | JBigInt _ | JStr _ =>
      Throws (TypeError ("Cannot create property " ++ quoted k ++ " on " ++ typeof v))
  | _ => Returns v
  end.

(** [{...v, k: x}]. *)
Definition spread_with (v : JsValue) (k : string) (x : JsValue) : JsValue :=
  JObj (put k x (own_props v)).

(* ----------------------------------------------------------------- *)
(** *** [JSON.stringify] and [String] *)

Definition hex_digit (n : N) : ascii :=
  match String.get (N.to_nat n) "0123456789abcdef" with
  | Some c => c
  | None => "0"%char
  end.

Definition double_quote : ascii := ascii_of_nat 34.

Definition json_escape (c : ascii) : string :=
  let n := N_of_ascii c in
  match n with
  | 8 => "\b" | 9 => "\t" | 10 => "\n" | 12 => "\f" | 13 => "\r"
  | 34 => String "\" (String double_quote EmptyString)
  | 92 => "\\"
  | _ =>
      if (n <? 32)%N
      then "\u00" ++ String (hex_digit (n / 16)) (String (hex_digit (n mod 16)) EmptyString)
      else String c EmptyString
  end%N.

Fixpoint json_escape_all (s : string) : string :=
  match s with
  | EmptyString => EmptyString
  | String c r => json_escape c ++ json_escape_all r
  end.

Definition json_quote (s : string) : string :=
  String double_quote (json_escape_all s) ++ String double_quote EmptyString.

Definition join (sep : string) (parts : list string) : string :=
  String.concat sep parts.

Definition circular_error : JsValue :=
  TypeError "Converting circular structure to JSON".

Definition bigint_error : JsValue :=
  TypeError "Do not know how to serialize a BigInt".

(** [JSON.stringify(v)] without replacer or indentation: [Returns None]
    is the result [undefined].  In an array, an element without JSON
    text is written "null"; in an object, such a property is left out.
    A reference back to an enclosing value is a cycle and throws. *)
Fixpoint stringify (v : JsValue) : Completion (option string) :=
  match v with
  | JUndefined => Returns None
  | JNull => Returns (Some "null")
  | JBool b => Returns (Some (if b then "true" else "false"))
  | JNum n => Returns (Some (string_of_Z n))
  | JBigInt _ => Throws bigint_error
  | JStr s => Returns (Some (json_quote s))
  | JArr items =>
      let fix elements (l : list JsValue) : Completion (list string) :=
        match l with
        | [] => Returns []
        | x :: r =>
            match stringify x with
            | Throws e => Throws e
            | Returns t =>
                match elements r with
                | Throws e => Throws e
                | Returns ts =>
                    Returns (match t with Some s => s | None => "null" end :: ts)
                end
            end
        end in
      match elements items with
      | Throws e => Throws e
      | Returns ts => Returns (Some ("[" ++ join "," ts ++ "]"))
      end
  | JObj props =>
      let fix members (l : list (string * JsValue)) : Completion (list string) :=
        match l with
        | [] => Returns []
        | (k, x) :: r =>
            match stringify x with
            | Throws e => Throws e
            | Returns t =>
                match members r with
                | Throws e => Throws e
                | Returns ts =>
                    Returns (match t with
                             | Some s => (json_quote k ++ ":" ++ s) :: ts
                             | None => ts
                             end)
                end
            end
        end in
      match members props with
      | Throws e => Throws e
      | Returns ts => Returns (Some ("{" ++ join "," ts ++ "}"))
      end
  | JUint8Array bytes =>
      Returns (Some ("{" ++ join ","
                       (map (fun kv => json_quote (fst kv) ++ ":" ++
                                       match snd kv with
                                       | JNum n => string_of_Z n
                                       | _ => "null"
                                       end)
                            (indexed_from 0 (map number_of_byte bytes)))
                     ++ "}"))
  | JArrayBuffer _ => Returns (Some "{}")
  | JError _ _ => Returns (Some "{}")
  | JFun _ _ => Returns None
  | JCycle _ => Throws circular_error
  end.

(** [JSON.stringify] as a value: a string or undefined. *)
Definition JSON_stringify (v : JsValue) : Completion JsValue :=
  match stringify v with
  | Throws e => Throws e
  | Returns (Some s) => Returns (JStr s)
  | Returns None => Returns JUndefined
  end.

(** [String(v)].  [joining] tells, for each enclosing container from the
    innermost, whether it is an array being joined: a reference back to
    such an array contributes the empty text, as engines do. *)
Fixpoint to_string (joining : list bool) (v : JsValue) : string :=
  match v with
  | JUndefined => "undefined"
  | JNull => "null"
  | JBool b => if b then "true" else "false"
  | JNum n | JBigInt n => string_of_Z n
  | JStr s => s
  | JArr items =>
      join "," (map (fun x => if is_nullish x then ""
                              else to_string (true :: joining) x) items)
  | JObj _ => "[object Object]"
  | JUint8Array bytes => join "," (map (fun b => string_of_Z (Z.of_N (Byte.to_N b))) bytes)
  | JArrayBuffer _ => "[object ArrayBuffer]"
  | JError name message =>
      if String.eqb name "" then message
      else if String.eqb message "" then name
      else name ++ ": " ++ message
  | JFun source _ => source
  | JCycle n =>
      match nth_error joining n with
      | Some true => ""
      | _ => "[object Object]"
      end
  end.

Definition ToString (v : JsValue) : string := to_string [] v.

(** [new Error(arg)]: the message is [String(arg)], and empty when
    [arg] is undefined. *)
Definition new_Error (arg : JsValue) : JsValue :=
  match arg with
  | JUndefined => Error ""
  | _ => Error (ToString arg)
  end.

(* ================================================================= *)
(** ** Error normalizer *)

Definition isErrorWithMessage (error : JsValue) : Completion bool :=
  if negb (String.eqb (typeof error) "object") then Returns false
  else if is_nullish error then Returns false
  else
    match hasProperty "message" error with
    | Throws e => Throws e
    | Returns false => Returns false
    | Returns true =>
        match getProp error "message" with
        | Throws e => Throws e
        | Returns m => Returns (String.eqb (typeof m) "string")
        end
    end.

Definition toErrorWithMessage (maybeError : JsValue) : Completion JsValue :=
  match isErrorWithMessage maybeError with
  | Throws e => Throws e
  | Returns true => Returns maybeError
  | Returns false =>
      match JSON_stringify maybeError with
      | Returns text => Returns (new_Error text)
      | Throws _ => Returns (new_Error (JStr (ToString maybeError)))
      end
  end.

Definition getErrorMessage (error : JsValue) : Completion JsValue :=
  match toErrorWithMessage error with
  | Throws e => Throws e
  | Returns e => getProp e "message"
  end.

(** The message policy in the words of the specification: "if the value
    already exposes a string message field, use it; otherwise attempt to
    render it as text via structured serialization; if that also fails
    (e.g., cyclic structure), fall back to a generic string
    conversion". *)
Definition message_field (v : JsValue) : option string :=
  match v with
  | JError _ message => Some message
  | JObj props =>
      match lookup "message" props with
      | Some (JStr message) => Some message
      | _ => None
      end
  | _ => None
  end.

Definition policy_message (v : JsValue) : string :=
  match message_field v with
  | Some message => message
  | None =>
      match stringify v with
      | Returns (Some text) => text
      | _ => ToString v
      end
  end.

(* ================================================================= *)
(** ** The environment of a client

    The client talks to the page ([window.PublicKeyCredential],
    [console.error]), to the backend ([fetch], [response.json()]), to
    the authenticator ([navigator.credentials]) and to its own
    [abortController] field.  Each of these is an effect; an [async]
    function is a tree of effects that ends by returning (the promise
    resolves) or throwing (the promise rejects). *)

Definition ControllerId : Type := nat.

Record RequestInit : Type := {
  method : string;
  headers : list (string * string);
  body : JsValue
}.

(** A response: its [ok] flag and what [response.json()] settles to. *)
Record Response : Type := {
  ok : bool;
  json : Completion JsValue
}.

(** [window.PublicKeyCredential]: undefined, null, or a value that is
    callable or not and whose [isConditionalMediationAvailable] member
    is absent or a function whose promise settles as given. *)
Inductive PublicKeyCredentialGlobal : Type :=
| PKC_undefined
| PKC_null
| PKC_value (callable : bool)
            (isConditionalMediationAvailable : option (Completion JsValue)).

Inductive Effect : Type -> Type :=
| WindowPublicKeyCredential : Effect PublicKeyCredentialGlobal
| ConsoleError (args : list JsValue) : Effect unit
| GetAbortController : Effect ControllerId
| SetAbortController (c : ControllerId) : Effect unit
| NewAbortController : Effect ControllerId
| Abort (c : ControllerId) : Effect unit
| Fetch (url : string) (init : RequestInit) : Effect (Completion Response)
| ResponseJson (r : Response) : Effect (Completion JsValue)
| CredentialsCreate (publicKey : JsValue) : Effect (Completion JsValue)
| CredentialsGet (publicKey mediation : JsValue) (signal : ControllerId)
    : Effect (Completion JsValue)
| IsConditionalMediationAvailable : Effect (Completion JsValue).

Inductive Async (A : Type) : Type :=
| Ret (a : A)
| Throw (e : JsValue)
| Vis {X : Type} (e : Effect X) (k : X -> Async A).
Arguments Ret {A} a.
Arguments Throw {A} e.
Arguments Vis {A X} e k.

Fixpoint bind {A B : Type} (p : Async A) (f : A -> Async B) : Async B :=
  match p with
  | Ret a => f a
  | Throw e => Throw e
  | Vis e k => Vis e (fun x => bind (k x) f)
  end.

(** [try { p } catch (e) { h e }]. *)
Fixpoint try_catch {A : Type} (p : Async A) (h : JsValue -> Async A) : Async A :=
  match p with
  | Ret a => Ret a
  | Throw e => h e
  | Vis e k => Vis e (fun x => try_catch (k x) h)
  end.

Definition trigger {X : Type} (e : Effect X) : Async X := Vis e Ret.

Definition lift {A : Type} (c : Completion A) : Async A :=
  match c with
  | Returns a => Ret a
  | Throws e => Throw e
  end.

(** [await] on a platform promise. *)
Definition await {A : Type} (e : Effect (Completion A)) : Async A :=
  Vis e lift.

Fixpoint console_errors (log : list (list JsValue)) : Async unit :=
  match log with
  | [] => Ret tt
  | args :: r => Vis (ConsoleError args) (fun _ => console_errors r)
  end.

Definition logged {A : Type} (c : Logged (Completion A)) : Async A :=
  bind (console_errors (fst c)) (fun _ => lift (snd c)).

Declare Scope async_scope.
Delimit Scope async_scope with async.
Notation "x <- p ;; q" := (bind p (fun x => q))
  (at level 61, p at next level, right associativity) : async_scope.
Notation "p ;; q" := (bind p (fun _ => q))
  (at level 61, right associativity) : async_scope.
Local Open Scope async_scope.

(* ================================================================= *)
(** ** The client *)

Record Config : Type := {
  apiUrl : string;
  apiKey : string;
  origin : string;
  rpid : string
}.

(** Modelled from the spec: the type [SigninMethod] of [./types], which
    is not in the sources.  "SigninSelector: a tagged choice of exactly
    one discriminant -- {byUserId: string} | {byAlias: string} |
    {autofill: true} | {discoverable: true}"; the objects are those the
    four entry points build. *)
Inductive SigninMethod : Type :=
| ByUserId (userId : string)
| ByAlias (alias : string)
| Autofill
| Discoverable.

Definition selector (m : SigninMethod) : JsValue :=
  match m with
  | ByUserId userId => JObj [("userId", JStr userId)]
  | ByAlias alias => JObj [("alias", JStr alias)]
  | Autofill => JObj [("autofill", JBool true)]
  | Discoverable => JObj [("discoverable", JBool true)]
  end.

(** An absent selector is [undefined]. *)
Definition selector_opt (m : option SigninMethod) : JsValue :=
  match m with
  | Some m => selector m
  | None => JUndefined
  end.

Section Client.

Variable config : Config.

Definition createHeaders : list (string * string) :=
  [("ApiKey", apiKey config);
   ("Content-Type", "application/json");
   ("Client-Version", "js-1.1.0")].

Definition post (url : string) (payload : JsValue) : Async Response :=
  text <- lift (JSON_stringify payload) ;;
  await (Fetch url {| method := "POST"; headers := createHeaders; body := text |}).

(** The end of the four request methods: parse the body, return it when
    the status is a success and wrap it as a server error otherwise. *)
Definition result_of (response : Response) : Async JsValue :=
  res <- await (ResponseJson response) ;;
  if ok response then Ret res
  else Ret (JObj [("error", spread_with res "from" (JStr "server"))]).

Definition isBrowserSupported : Async bool :=
  pkc <- trigger WindowPublicKeyCredential ;;
  Ret match pkc with
      | PKC_undefined => false
      | PKC_null => false
      | PKC_value callable _ => callable
      end.

Definition unsupported_msg : string :=
  "WebAuthn and PublicKeyCredentials are not supported on this browser/device".

Definition assertBrowserSupported : Async unit :=
  supported <- isBrowserSupported ;;
  if negb supported then Throw (Error unsupported_msg) else Ret tt.

Definition isAutofillSupported : Async JsValue :=
  pkc <- trigger WindowPublicKeyCredential ;;
  match pkc with
  | PKC_undefined =>
      lift (getProp JUndefined "isConditionalMediationAvailable")
  | PKC_null =>
      lift (getProp JNull "isConditionalMediationAvailable")
  | PKC_value _ None => Ret (JBool false)
  | PKC_value _ (Some _) => await IsConditionalMediationAvailable
  end.

Definition abort : Async unit :=
  c <- trigger GetAbortController ;;
  trigger (Abort c).

Definition handleAbort : Async unit :=
  abort ;;
  c <- trigger NewAbortController ;;
  trigger (SetAbortController c).

(** [v.name()] for a method of no argument. *)
Definition callMethod (v : JsValue) (name : string) : Async JsValue :=
  f <- lift (getProp v name) ;;
  match f with
  | JFun _ result => Ret result
  | _ => Throw (TypeError (name ++ " is not a function"))
  end.

(** The callback [(cred) => { cred.id = base64UrlToArrayBuffer(cred.id) }],
    giving the credential descriptor after the assignment. *)
Definition decodeId (cred : JsValue) : Async JsValue :=
  id <- lift (getProp cred "id") ;;
  id' <- logged (base64UrlToArrayBuffer id) ;;
  lift (setProp cred "id" id').

Fixpoint forEach (f : JsValue -> Async JsValue) (items : list JsValue)
  : Async (list JsValue) :=
  match items with
  | [] => Ret []
  | x :: r =>
      x' <- f x ;;
      r' <- forEach f r ;;
      Ret (x' :: r')
  end.

(** [list?.forEach((cred) => ...)], giving the list after the calls:
    nothing on undefined and null, the callback on each element of an
    array (or of a typed array), a TypeError on anything without a
    [forEach] method. *)
Definition decodeIds (list : JsValue) : Async JsValue :=
  match list with
  | JUndefined | JNull => Ret list
  | JArr items =>
      items' <- forEach decodeId items ;;
      Ret (JArr items')
  | JUint8Array bytes =>
      forEach decodeId (map number_of_byte bytes) ;;
      Ret list
  | _ =>
      f <- lift (getProp list "forEach") ;;
      match f with
      | JFun _ _ => Ret list
      | _ => Throw (TypeError "forEach is not a function")
      end
  end.

(** The ceremonies assign inside the parsed response: [data.user.id = ...]
    changes the object that [data.user] holds.  A changed child is put
    back under its key; no assignment happens in the program there. *)
Definition write_back (obj : JsValue) (k : string) (child : JsValue) : JsValue :=
  match obj with
  | JObj props => JObj (put k child props)
  | _ => obj
  end.

(** [obj.field = base64UrlToArrayBuffer(obj.field)], giving [obj] after
    the assignment. *)
Definition decodeField (obj : JsValue) (field : string) : Async JsValue :=
  text <- lift (getProp obj field) ;;
  bytes <- logged (base64UrlToArrayBuffer text) ;;
  lift (setProp obj field bytes).

Definition registerBegin (token : string) : Async JsValue :=
  response <- post (apiUrl config ++ "/register/begin")
                (JObj [("token", JStr token);
                       ("RPID", JStr (rpid config));
                       ("Origin", JStr (origin config))]) ;;
  result_of response.

Definition registerComplete (credential session : JsValue)
    (credentialNickname : string) : Async JsValue :=
  attestationResponse <- lift (getProp credential "response") ;;
  id <- lift (getProp credential "id") ;;
  rawId <- lift (getProp credential "rawId") ;;
  rawId64 <- logged (arrayBufferToBase64Url rawId) ;;
  type <- lift (getProp credential "type") ;;
  extensions <- callMethod credential "getClientExtensionResults" ;;
  attestationObject <- lift (getProp attestationResponse "attestationObject") ;;
  attestationObject64 <- logged (arrayBufferToBase64Url attestationObject) ;;
  clientDataJSON <- lift (getProp attestationResponse "clientDataJSON") ;;
  clientDataJSON64 <- logged (arrayBufferToBase64Url clientDataJSON) ;;
  response <- post (apiUrl config ++ "/register/complete")
                (JObj [("session", session);
                       ("response",
                        JObj [("id", id);
                              ("rawId", JStr rawId64);
                              ("type", type);
                              ("extensions", extensions);
                              ("response",
                               JObj [("AttestationObject", JStr attestationObject64);
                                     ("clientDataJson", JStr clientDataJSON64)])]);
                       ("nickname", JStr credentialNickname);
                       ("RPID", JStr (rpid config));
                       ("Origin", JStr (origin config))]) ;;
  result_of response.

(** The [catch] block of both ceremonies. *)
Definition normalize (caughtError : JsValue) : Async JsValue :=
  errorMessage <- lift (getErrorMessage caughtError) ;;
  let error := JObj [("from", JStr "client");
                     ("errorCode", JStr "unknown");
                     ("title", errorMessage)] in
  trigger (ConsoleError [caughtError]) ;;
  trigger (ConsoleError [error]) ;;
  Ret (JObj [("error", error)]).

Definition failed_create_credential : JsValue :=
  JObj [("from", JStr "client");
        ("errorCode", JStr "failed_create_credential");
        ("title", JStr "Failed to create credential (navigator.credentials.create returned null)")].

Definition register (token credentialNickname : string) : Async JsValue :=
  try_catch
    (assertBrowserSupported ;;
     registration <- registerBegin token ;;
     error <- lift (getProp registration "error") ;;
     if truthy error then
       trigger (ConsoleError [error]) ;;
       Ret (JObj [("error", error)])
     else
       data <- lift (getProp registration "data") ;;
       data <- decodeField data "challenge" ;;
       user <- lift (getProp data "user") ;;
       user <- decodeField user "id" ;;
       let data := write_back data "user" user in
       excludeCredentials <- lift (getProp data "excludeCredentials") ;;
       excludeCredentials <- decodeIds excludeCredentials ;;
       let data := if is_nullish excludeCredentials then data
                   else write_back data "excludeCredentials" excludeCredentials in
       credential <- await (CredentialsCreate data) ;;
       if negb (truthy credential) then
         trigger (ConsoleError [failed_create_credential]) ;;
         Ret (JObj [("error", failed_create_credential)])
       else
         session <- lift (getProp registration "session") ;;
         registerComplete credential session credentialNickname)
    normalize.

(** The object [signinBegin] serializes into its request. *)
Definition signinBeginPayload (signinMethod : JsValue) : Completion JsValue :=
  match hasProperty "userId" signinMethod with
  | Throws e => Throws e
  | Returns hasUserId =>
      match (if hasUserId then getProp signinMethod "userId" else Returns JUndefined) with
      | Throws e => Throws e
      | Returns userId =>
          match hasProperty "alias" signinMethod with
          | Throws e => Throws e
          | Returns hasAlias =>
              match (if hasAlias then getProp signinMethod "alias" else Returns JUndefined) with
              | Throws e => Throws e
              | Returns alias =>
                  Returns (JObj [("userId", userId);
                                 ("alias", alias);
                                 ("RPID", JStr (rpid config));
                                 ("Origin", JStr (origin config))])
              end
          end
      end
  end.

Definition signinBegin (signinMethod : JsValue) : Async JsValue :=
  payload <- lift (signinBeginPayload signinMethod) ;;
  response <- post (apiUrl config ++ "/signin/begin") payload ;;
  result_of response.

(** [new Uint8Array(v)]: a view of a buffer, a copy of a typed array or
    of an array, the empty array for undefined and null, zeros for a
    length.  Text and other objects, which go through [ToIndex] or the
    array-like protocol, are outside what the model follows and give
    the empty array. *)
Definition new_Uint8Array (v : JsValue) : Completion (list byte) :=
  match v with
  | JArrayBuffer bytes | JUint8Array bytes => Returns bytes
  | JArr items => Uint8Array_from items
  | JNum n =>
      if (n <? 0)%Z then Throws (JError "RangeError" "Invalid typed array length")
      else Returns (repeat x00 (Z.to_nat n))
  | JBool true => Returns [x00]
  | JBigInt _ => Throws (TypeError "Cannot convert a BigInt value to a number")
  | _ => Returns []
  end.

Definition signinComplete (credential session : JsValue) : Async JsValue :=
  assertionResponse <- lift (getProp credential "response") ;;
  id <- lift (getProp credential "id") ;;
  rawId <- lift (getProp credential "rawId") ;;
  rawIdBytes <- lift (new_Uint8Array rawId) ;;
  rawId64 <- logged (arrayBufferToBase64Url (JUint8Array rawIdBytes)) ;;
  type <- lift (getProp credential "type") ;;
  extensions <- callMethod credential "getClientExtensionResults" ;;
  authenticatorData <- lift (getProp assertionResponse "authenticatorData") ;;
  authenticatorData64 <- logged (arrayBufferToBase64Url authenticatorData) ;;
  clientDataJSON <- lift (getProp assertionResponse "clientDataJSON") ;;
  clientDataJSON64 <- logged (arrayBufferToBase64Url clientDataJSON) ;;
  signature <- lift (getProp assertionResponse "signature") ;;
  signature64 <- logged (arrayBufferToBase64Url signature) ;;
  response <- post (apiUrl config ++ "/signin/complete")
                (JObj [("session", session);
                       ("response",
                        JObj [("id", id);
                              ("rawId", JStr rawId64);
                              ("type", type);
                              ("extensions", extensions);
                              ("response",
                               JObj [("authenticatorData", JStr authenticatorData64);
                                     ("clientDataJson", JStr clientDataJSON64);
                                     ("signature", JStr signature64)])]);
                       ("RPID", JStr (rpid config));
                       ("Origin", JStr (origin config))]) ;;
  result_of response.

Definition signin (signinMethod : JsValue) : Async JsValue :=
  try_catch
    (assertBrowserSupported ;;
     handleAbort ;;
     let signinMethod :=
       if negb (truthy signinMethod) then JObj [("discoverable", JBool true)]
       else signinMethod in
     signin <- signinBegin signinMethod ;;
     error <- lift (getProp signin "error") ;;
     if truthy error then Ret signin
     else
       data <- lift (getProp signin "data") ;;
       data <- decodeField data "challenge" ;;
       allowCredentials <- lift (getProp data "allowCredentials") ;;
       allowCredentials <- decodeIds allowCredentials ;;
       let data := if is_nullish allowCredentials then data
                   else write_back data "allowCredentials" allowCredentials in
       autofill <- lift (hasProperty "autofill" signinMethod) ;;
       let mediation := if autofill : bool then JStr "conditional" else JUndefined in
       controller <- trigger GetAbortController ;;
       credential <- await (CredentialsGet data mediation controller) ;;
       session <- lift (getProp signin "session") ;;
       signinComplete credential session)
    normalize.

Definition signinWithId (userId : string) : Async JsValue :=
  signin (JObj [("userId", JStr userId)]).

Definition signinWithAlias (alias : string) : Async JsValue :=
  signin (JObj [("alias", JStr alias)]).

Definition autofill_unsupported_msg : string :=
  "Autofill authentication (conditional meditation) is not supported in this browser".

Definition signinWithAutofill : Async JsValue :=
  supported <- isAutofillSupported ;;
  if negb (truthy supported) then Throw (Error autofill_unsupported_msg)
  else signin (JObj [("autofill", JBool true)]).

Definition signinWithDiscoverable : Async JsValue :=
  signin (JObj [("discoverable", JBool true)]).

End Client.

(* ================================================================= *)
(** ** Running a ceremony *)

(** What the environment answers: the page's [PublicKeyCredential]
    global, the backend and the authenticator. *)
Record Env : Type := {
  publicKeyCredential : PublicKeyCredentialGlobal;
  fetch : string -> RequestInit -> Completion Response;
  credentials_create : JsValue -> Completion JsValue;
  credentials_get : JsValue -> JsValue -> Completion JsValue
}.

(** The part of a client that changes: its [abortController] field and
    the controllers made so far, with those that were aborted. *)
Record ClientState : Type := {
  abortController : ControllerId;
  aborted : list ControllerId;
  fresh : ControllerId
}.

(** [new Client(config)]: one controller, not aborted. *)
Definition new_client : ClientState :=
  {| abortController := 0; aborted := []; fresh := 1 |}.

Definition is_aborted (c : ControllerId) (st : ClientState) : bool :=
  existsb (Nat.eqb c) (aborted st).

Definition AbortError : JsValue :=
  JError "AbortError" "signal is aborted without reason".

Inductive Event : Type :=
| EvConsoleError (args : list JsValue)
| EvAbort (c : ControllerId)
| EvNewController (c : ControllerId)
| EvFetch (url : string) (init : RequestInit) (answer : Completion Response)
| EvJson (r : Response) (answer : Completion JsValue)
| EvCreate (publicKey : JsValue) (answer : Completion JsValue)
| EvGet (publicKey mediation : JsValue) (signal : ControllerId)
        (answer : Completion JsValue)
| EvProbe (answer : Completion JsValue).

(** One effect: its answer, the state after it and what an observer
    sees of it.  A retrieval whose signal is aborted rejects with the
    abort reason. *)
Definition perform (env : Env) {X : Type} (e : Effect X) (st : ClientState)
  : X * ClientState * list Event :=
  match e in Effect X return X * ClientState * list Event with
  | WindowPublicKeyCredential => (publicKeyCredential env, st, [])
  | ConsoleError args => (tt, st, [EvConsoleError args])
  | GetAbortController => (abortController st, st, [])
  | SetAbortController c =>
      (tt, {| abortController := c; aborted := aborted st; fresh := fresh st |}, [])
  | NewAbortController =>
      (fresh st,
       {| abortController := abortController st; aborted := aborted st;
          fresh := S (fresh st) |},
       [EvNewController (fresh st)])
  | Abort c =>
      (tt,
       {| abortController := abortController st; aborted := c :: aborted st;
          fresh := fresh st |},
       [EvAbort c])
  | Fetch url init =>
      let answer := fetch env url init in (answer, st, [EvFetch url init answer])
  | ResponseJson r => (json r, st, [EvJson r (json r)])
  | CredentialsCreate publicKey =>
      let answer := credentials_create env publicKey in
      (answer, st, [EvCreate publicKey answer])
  | CredentialsGet publicKey mediation signal =>
      let answer := if is_aborted signal st then Throws AbortError
                    else credentials_get env publicKey mediation in
      (answer, st, [EvGet publicKey mediation signal answer])
  | IsConditionalMediationAvailable =>
      let answer :=
        match publicKeyCredential env with
        | PKC_value _ (Some settled) => settled
        | _ => Throws (TypeError "isConditionalMediationAvailable is not a function")
        end in
      (answer, st, [EvProbe answer])
  end.

(** A call run to the end, nothing else running in between: how the
    promise settles ([Returns]: resolved, [Throws]: rejected), the state
    left and the events in order. *)
Fixpoint run (env : Env) {A : Type} (p : Async A) (st : ClientState)
  : Completion A * ClientState * list Event :=
  match p with
  | Ret a => (Returns a, st, [])
  | Throw e => (Throws e, st, [])
  | Vis e k =>
      let '(x, st1, evs) := perform env e st in
      let '(r, st2, evs') := run env (k x) st1 in
      (r, st2, (evs ++ evs')%list)
  end.

Definition outcome {A : Type} (r : Completion A * ClientState * list Event)
  : Completion A := fst (fst r).
Definition final_state {A : Type} (r : Completion A * ClientState * list Event)
  : ClientState := snd (fst r).
Definition events {A : Type} (r : Completion A * ClientState * list Event)
  : list Event := snd r.

(* ================================================================= *)
(** ** Several calls on one client

    JavaScript runs one call at a time and switches only at an [await].
    A call runs until it awaits the platform (the backend, the
    authenticator, the autofill probe), stays pending there, and goes on
    when the awaited promise settles.  An [await] of one of the client's
    own methods is not a point where the model switches: the schedules
    kept are schedules of the program. *)

Definition awaited {X : Type} (e : Effect X) : bool :=
  match e with
  | Fetch _ _ | ResponseJson _ | CredentialsCreate _ | CredentialsGet _ _ _
  | IsConditionalMediationAvailable => true
  | _ => false
  end.

Inductive Task : Type :=
| Pending {X : Type} (e : Effect X) (k : X -> Async JsValue)
| Settled (r : Completion JsValue).

Record Scheduler : Type := {
  client : ClientState;
  tasks : list Task;
  observed : list Event
}.

Definition start_state : Scheduler :=
  {| client := new_client; tasks := []; observed := [] |}.

(** Run [p] up to its next [await]. *)
Fixpoint advance (env : Env) (p : Async JsValue) (st : ClientState)
  : Task * ClientState * list Event :=
  match p with
  | Ret a => (Settled (Returns a), st, [])
  | Throw e => (Settled (Throws e), st, [])
  | Vis e k =>
      if awaited e then (Pending e k, st, [])
      else
        let '(x, st1, evs) := perform env e st in
        let '(t, st2, evs') := advance env (k x) st1 in
        (t, st2, (evs ++ evs')%list)
  end.

(** A call is made: it runs to its first [await] and joins the tasks. *)
Definition call (env : Env) (p : Async JsValue) (s : Scheduler) : Scheduler :=
  let '(t, st, evs) := advance env p (client s) in
  {| client := st; tasks := (tasks s ++ [t])%list;
     observed := (observed s ++ evs)%list |}.

Fixpoint replace_nth {A : Type} (i : nat) (x : A) (l : list A) : list A :=
  match l, i with
  | [], _ => []
  | _ :: r, O => x :: r
  | y :: r, S j => y :: replace_nth j x r
  end.

(** The promise that task [i] awaits settles: the task goes on to its
    next [await]. *)
Definition resume (env : Env) (i : nat) (s : Scheduler) : Scheduler :=
  match nth_error (tasks s) i with
  | Some (Pending e k) =>
      let '(x, st1, evs) := perform env e (client s) in
      let '(t, st2, evs') := advance env (k x) st1 in
      {| client := st2; tasks := replace_nth i t (tasks s);
         observed := (observed s ++ evs ++ evs')%list |}
  | _ => s
  end.

(** The signal a task has armed a retrieval with. *)
Definition armed_signal (t : Task) : option ControllerId :=
  match t with
  | Pending e _ =>
      match e with
      | CredentialsGet _ _ signal => Some signal
      | _ => None
      end
  | Settled _ => None
  end.

(** The mediation a task has asked its retrieval for. *)
Definition armed_mediation (t : Task) : option JsValue :=
  match t with
  | Pending e _ =>
      match e with
      | CredentialsGet _ mediation _ => Some mediation
      | _ => None
      end
  | Settled _ => None
  end.

Definition settled (t : Task) : option (Completion JsValue) :=
  match t with
  | Pending _ _ => None
  | Settled r => Some r
  end.

(** The pending retrievals whose signal is not aborted. *)
Definition live_retrievals (s : Scheduler) : list ControllerId :=
  filter (fun c => negb (is_aborted c (client s)))
    (flat_map (fun t => match armed_signal t with Some c => [c] | None => [] end)
       (tasks s)).

(** The kind of an effect and of the event it leaves, to tell what a
    part of a ceremony can do at all. *)
Inductive Kind : Type :=
| KPage
| KConsole
| KController
| KFetch (url : string)
| KJson
| KCreate
| KGet
| KProbe.

Definition effect_kind {X : Type} (e : Effect X) : Kind :=
  match e with
  | WindowPublicKeyCredential => KPage
  | ConsoleError _ => KConsole
  | GetAbortController | SetAbortController _ | NewAbortController | Abort _ =>
      KController
  | Fetch url _ => KFetch url
  | ResponseJson _ => KJson
  | CredentialsCreate _ => KCreate
  | CredentialsGet _ _ _ => KGet
  | IsConditionalMediationAvailable => KProbe
  end.

Definition event_kind (ev : Event) : Kind :=
  match ev with
  | EvConsoleError _ => KConsole
  | EvAbort _ | EvNewController _ => KController
  | EvFetch url _ _ => KFetch url
  | EvJson _ _ => KJson
  | EvCreate _ _ => KCreate
  | EvGet _ _ _ _ => KGet
  | EvProbe _ => KProbe
  end.

(** [Uses allowed p]: every effect in [p] is of an allowed kind. *)
Inductive Uses (allowed : Kind -> Prop) {A : Type} : Async A -> Prop :=
| Uses_Ret (a : A) : Uses allowed (Ret a)
| Uses_Throw (e : JsValue) : Uses allowed (Throw e)
| Uses_Vis {X : Type} (e : Effect X) (k : X -> Async A) :
    allowed (effect_kind e) ->
    (forall x, Uses allowed (k x)) ->
    Uses allowed (Vis e k).

(** A result with events put before its own. *)
Definition after {A : Type} (evs : list Event)
    (r : Completion A * ClientState * list Event)
  : Completion A * ClientState * list Event :=
  (outcome r, final_state r, (evs ++ events r)%list).

(** What [isBrowserSupported] answers in an environment. *)
Definition supported (env : Env) : bool :=
  match publicKeyCredential env with
  | PKC_value callable _ => callable
  | _ => false
  end.

(** The public sign-in entry point of each selector. *)
Definition signinWith (config : Config) (m : SigninMethod) : Async JsValue :=
  match m with
  | ByUserId userId => signinWithId config userId
  | ByAlias alias => signinWithAlias config alias
  | Autofill => signinWithAutofill config
  | Discoverable => signinWithDiscoverable config
  end.

Definition unknown_error (title : string) : JsValue :=
  JObj [("from", JStr "client"); ("errorCode", JStr "unknown"); ("title", JStr title)].

(** The shape of a statement about the runs that show a given event: the
    outcome is [good] and every event is of a [clean] kind. *)
Definition Holds {A : Type} (ev : Event) (good : Completion A -> Prop)
    (clean : Kind -> Prop) (r : Completion A * ClientState * list Event) : Prop :=
  In ev (events r) ->
  good (outcome r) /\ Forall (fun e => clean (event_kind e)) (events r).

(** The kinds other than those listed: what a part of a ceremony can
    do when it can do none of them. *)
Definition excludes (ks : list Kind) (k : Kind) : Prop := ~ In k ks.

Definition null_response_msg : string :=
  "Cannot read properties of null (reading 'response')".

(** The request that [post] hands to [fetch] for a serialized payload. *)
Definition request (config : Config) (text : JsValue) : RequestInit :=
  {| method := "POST"; headers := createHeaders config; body := text |}.

(** The [userId] and [alias] that a selector puts in the sign-in
    request, in the words of the specification: "given selector
    {byUserId: u1}, the begin-sign-in request carries userId = u1 and
    alias = undefined; given {byAlias: a1}, alias = a1 and userId =
    undefined; given {discoverable: true} or no selector, both are
    undefined". *)
Definition expected_userId (m : option SigninMethod) : JsValue :=
  match m with
  | Some (ByUserId userId) => JStr userId
  | _ => JUndefined
  end.

Definition expected_alias (m : option SigninMethod) : JsValue :=
  match m with
  | Some (ByAlias alias) => JStr alias
  | _ => JUndefined
  end.

(** The payload of the sign-in request for a selector. *)
Definition signin_payload (config : Config) (m : option SigninMethod) : JsValue :=
  JObj [("userId", expected_userId m);
        ("alias", expected_alias m);
        ("RPID", JStr (rpid config));
        ("Origin", JStr (origin config))].

(** What a ceremony resolves to, and logs, when the page has no
    WebAuthn. *)
Definition unsupported_result : JsValue :=
  JObj [("error", unknown_error unsupported_msg)].

Definition unsupported_events : list Event :=
  [EvConsoleError [Error unsupported_msg];
   EvConsoleError [unknown_error unsupported_msg]].

(** A sign-in call: one of the four public entry points, or [signin]
    itself without selector. *)
Definition signinCall (config : Config) (m : option SigninMethod) : Async JsValue :=
  match m with
  | Some m => signinWith config m
  | None => signin config JUndefined
  end.

(* ----------------------------------------------------------------- *)
(** *** Environments to run examples in *)

Definition example_config : Config :=
  {| apiUrl := "https://v4.passwordless.dev";
     apiKey := "demo:public:key";
     origin := "https://example.com";
     rpid := "example.com" |}.

(** A backend that answers by endpoint, whatever the request says. *)
Definition backend (routes : list (string * Response))
    (url : string) (init : RequestInit) : Completion Response :=
  match find (fun route => String.eqb (fst route) url) routes with
  | Some route => Returns (snd route)
  | None => Throws (TypeError "Failed to fetch")
  end.

Definition register_options : JsValue :=
  JObj [("data",
         JObj [("challenge", JStr "aGk");
               ("user", JObj [("id", JStr "dTE"); ("name", JStr "u1")]);
               ("excludeCredentials",
                JArr [JObj [("id", JStr "AQ"); ("type", JStr "public-key")]])]);
        ("session", JStr "session-1")].

Definition signin_options : JsValue :=
  JObj [("data", JObj [("challenge", JStr "aGk"); ("allowCredentials", JArr [])]);
        ("session", JStr "session-2")].

Definition example_credential : JsValue :=
  JObj [("id", JStr "AQ");
        ("rawId", JArrayBuffer [x01]);
        ("type", JStr "public-key");
        ("getClientExtensionResults",
         JFun "function getClientExtensionResults() { [native code] }" (JObj []));
        ("response",
         JObj [("attestationObject", JArrayBuffer [x02; x03]);
               ("clientDataJSON", JArrayBuffer [x04]);
               ("authenticatorData", JArrayBuffer [x05]);
               ("signature", JArrayBuffer [x06])])].

Definition example_routes : list (string * Response) :=
  [("https://v4.passwordless.dev/register/begin",
    {| ok := true; json := Returns register_options |});
   ("https://v4.passwordless.dev/register/complete",
    {| ok := true; json := Returns (JObj [("token", JStr "verify123")]) |});
   ("https://v4.passwordless.dev/signin/begin",
    {| ok := true; json := Returns signin_options |});
   ("https://v4.passwordless.dev/signin/complete",
    {| ok := true; json := Returns (JObj [("token", JStr "verify456")]) |})].

(** A browser with WebAuthn and conditional mediation, a backend that
    accepts, an authenticator that answers. *)
Definition example_env : Env :=
  {| publicKeyCredential := PKC_value true (Some (Returns (JBool true)));
     fetch := backend example_routes;
     credentials_create := fun _ => Returns example_credential;
     credentials_get := fun _ _ => Returns example_credential |}.

(** The same without [window.PublicKeyCredential]. *)
Definition unsupported_env : Env :=
  {| publicKeyCredential := PKC_undefined;
     fetch := backend example_routes;
     credentials_create := fun _ => Returns example_credential;
     credentials_get := fun _ _ => Returns example_credential |}.

(** The same with an authenticator that resolves to null. *)
Definition null_authenticator_env : Env :=
  {| publicKeyCredential := PKC_value true (Some (Returns (JBool true)));
     fetch := backend example_routes;
     credentials_create := fun _ => Returns JNull;
     credentials_get := fun _ _ => Returns JNull |}.

Definition invalid_token_response : Response :=
  {| ok := false; json := Returns (JObj [("errorCode", JStr "invalid_token")]) |}.

(** The same with a backend that refuses the registration token. *)
Definition invalid_token_env : Env :=
  {| publicKeyCredential := PKC_value true (Some (Returns (JBool true)));
     fetch := backend [("https://v4.passwordless.dev/register/begin",
                        invalid_token_response)];
     credentials_create := fun _ => Returns example_credential;
     credentials_get := fun _ _ => Returns example_credential |}.

(** Two sign-ins that overlap: the page starts the autofill sign-in,
    whose probe resolves and whose request for options goes out; the
    user then starts a sign-in by user id before that request is
    answered; then both requests are answered and both bodies read. *)
Definition overlapping_signins : Scheduler :=
  let s := call example_env (signinWithAutofill example_config) start_state in
  let s := resume example_env 0 s in
  let s := call example_env (signinWithId example_config "u1") s in
  let s := resume example_env 0 s in
  let s := resume example_env 0 s in
  let s := resume example_env 1 s in
  resume example_env 1 s.

(** Two sign-ins one after the other's retrieval call: the first is
    pending at the authenticator when the second starts, and is then
    resumed. *)
Definition superseded_signin : Scheduler :=
  let s := call example_env (signinWithDiscoverable example_config) start_state in
  let s := resume example_env 0 s in
  let s := resume example_env 0 s in
  let s := call example_env (signinWithId example_config "u1") s in
  resume example_env 0 s.

(* ----------------------------------------------------------------- *)
(** *** The controller discipline *)

(** Effects that neither touch the [abortController] field nor arm a
    retrieval. *)
Definition plain (k : Kind) : Prop := k <> KController /\ k <> KGet.

(** Programs that touch the controller as the client does: they replace
    it only the way [handleAbort] does (abort the current one, make a
    new one, store it), and they arm a retrieval only with the signal
    of the controller read from the field at that moment. *)
Inductive Disciplined {A : Type} : Async A -> Prop :=
| Disc_Ret (a : A) : Disciplined (Ret a)
| Disc_Throw (e : JsValue) : Disciplined (Throw e)
| Disc_plain {X : Type} (e : Effect X) (k : X -> Async A) :
    plain (effect_kind e) ->
    (forall x, Disciplined (k x)) ->
    Disciplined (Vis e k)
| Disc_retrieval (publicKey mediation : ControllerId -> JsValue)
    (k : ControllerId -> Completion JsValue -> Async A) :
    (forall c x, Disciplined (k c x)) ->
    Disciplined
      (Vis GetAbortController
         (fun c => Vis (CredentialsGet (publicKey c) (mediation c) c) (k c)))
| Disc_replace (k : unit -> Async A) :
    (forall u, Disciplined (k u)) ->
    Disciplined
      (Vis GetAbortController
         (fun c => Vis (Abort c)
            (fun _ => Vis NewAbortController
               (fun c' => Vis (SetAbortController c') k)))).

(** A signal that is the current controller's or is aborted. *)
Definition current_or_aborted (st : ClientState) (c : ControllerId) : Prop :=
  c = abortController st \/ is_aborted c st = true.

(** A pending task goes on with a disciplined program, and a retrieval
    it has armed holds the current signal or an aborted one. *)
Definition task_ok (st : ClientState) (t : Task) : Prop :=
  match t with
  | Settled _ => True
  | Pending e k =>
      awaited e = true
      /\ (forall x, Disciplined (k x))
      /\ match armed_signal t with
         | Some c => current_or_aborted st c
         | None => True
         end
  end.

(** How the state of a client moves on: aborted controllers stay
    aborted, and the current controller stays or is aborted. *)
Definition moves_on (st st' : ClientState) : Prop :=
  (forall c, is_aborted c st = true -> is_aborted c st' = true)
  /\ current_or_aborted st' (abortController st).

(** The states one client reaches when sign-in calls are made and
    awaited promises settle, in any order. *)
Inductive Reachable (env : Env) (config : Config) : Scheduler -> Prop :=
| Reach_start : Reachable env config start_state
| Reach_call (m : option SigninMethod) (s : Scheduler) :
    Reachable env config s ->
    Reachable env config (call env (signinCall config m) s)
| Reach_resume (i : nat) (s : Scheduler) :
    Reachable env config s ->
    Reachable env config (resume env i s).

(** Every task of the client is in order. *)
Definition in_order (s : Scheduler) : Prop :=
  Forall (task_ok (client s)) (tasks s).

(** The signals that pending retrievals are armed with. *)
Definition armed_signals (s : Scheduler) : list ControllerId :=
  flat_map (fun t => match armed_signal t with Some c => [c] | None => [] end)
    (tasks s).

(* ================================================================= *)
(** * Properties of the codec *)

Ltac Zify.zify_post_hook ::= Z.to_euclidean_division_equations.

Section StringFacts.

Lemma string_ind3 (P : string -> Prop) :
  P EmptyString ->
  (forall a, P (String a EmptyString)) ->
  (forall a b, P (String a (String b EmptyString))) ->
  (forall a b c r, P r -> P (String a (String b (String c r)))) ->
  forall s, P s.
Proof.
  intros H0 H1 H2 H3.
  exact (fix IH (s : string) : P s :=
           match s with
           | EmptyString => H0
           | String a EmptyString => H1 a
           | String a (String b EmptyString) => H2 a b
           | String a (String b (String c r)) => H3 a b c r (IH r)
           end).
Qed.

Lemma list_ind4 {A} (P : list A -> Prop) :
  P [] ->
  (forall a, P [a]) ->
  (forall a b, P [a; b]) ->
  (forall a b c, P [a; b; c]) ->
  (forall a b c d r, P r -> P (a :: b :: c :: d :: r)) ->
  forall l, P l.
Proof.
  intros H0 H1 H2 H3 H4.
  exact (fix IH (l : list A) : P l :=
           match l with
           | [] => H0
           | [a] => H1 a
           | [a; b] => H2 a b
           | [a; b; c] => H3 a b c
           | a :: b :: c :: d :: r => H4 a b c d r (IH r)
           end).
Qed.

Lemma length_append (s t : string) :
  String.length (s ++ t) = String.length s + String.length t.
Proof. induction s; simpl; congruence. Qed.

Lemma length_repeat_char c n : String.length (repeat_char c n) = n.
Proof. induction n; simpl; congruence. Qed.

Lemma length_sextet_chars q : String.length (sextet_chars q) = List.length q.
Proof. induction q; simpl; congruence. Qed.

End StringFacts.

(** ** The alphabet table *)

Lemma N_below_forallb (P : N -> bool) (k : nat) :
  forallb P (map N.of_nat (seq 0 k)) = true ->
  forall n, (n < N.of_nat k)%N -> P n = true.
Proof.
  intros H n Hn. rewrite forallb_forall in H. apply H.
  apply in_map_iff. exists (N.to_nat n). split; [apply N2Nat.id|].
  apply in_seq. lia.
Qed.

Lemma char_sextet_sextet_char n :
  (n < 64)%N -> char_sextet (sextet_char n) = Some n.
Proof.
  intros Hn.
  pose (P := fun n => match char_sextet (sextet_char n) with
                      | Some m => N.eqb m n | None => false end).
  assert (HP : P n = true) by (apply (N_below_forallb P 64); [vm_compute; reflexivity | exact Hn]).
  unfold P in HP. destruct (char_sextet (sextet_char n)); [|discriminate].
  apply N.eqb_eq in HP. congruence.
Qed.

Lemma index_of_get c s n :
  index_of c s = Some n ->
  String.get (N.to_nat n) s = Some c /\ (N.to_nat n < String.length s)%nat.
Proof.
  revert n. induction s as [|d r IH]; simpl; intros n H; [discriminate|].
  destruct (Ascii.eqb c d) eqn:E.
  - apply Ascii.eqb_eq in E. inversion H; subst. simpl. split; [reflexivity | lia].
  - destruct (index_of c r) as [m|]; [|discriminate]. simpl in H. inversion H; subst.
    destruct (IH m eq_refl) as [G L].
    rewrite N2Nat.inj_succ. simpl. split; [exact G | lia].
Qed.

Lemma char_sextet_inv c n :
  char_sextet c = Some n -> sextet_char n = c /\ (n < 64)%N.
Proof.
  intros H. apply index_of_get in H. destruct H as [G L].
  unfold sextet_char. rewrite G. split; [reflexivity|].
  change (String.length base64_alphabet) with 64%nat in L. lia.
Qed.

(** No character of the alphabet is white space, "=", "-" or "_". *)
Lemma sextet_char_plain n :
  (n < 64)%N ->
  let c := sextet_char n in
  is_ascii_whitespace c = false /\ Ascii.eqb c "=" = false
  /\ Ascii.eqb c "-" = false /\ Ascii.eqb c "_" = false.
Proof.
  intros Hn.
  pose (P := fun n => let c := sextet_char n in
     negb (is_ascii_whitespace c) && negb (Ascii.eqb c "=")
     && negb (Ascii.eqb c "-") && negb (Ascii.eqb c "_")).
  assert (HP : P n = true) by (apply (N_below_forallb P 64); [vm_compute; reflexivity | exact Hn]).
  unfold P in HP. cbv zeta in *.
  repeat rewrite andb_true_iff in HP. repeat rewrite negb_true_iff in HP.
  tauto.
Qed.

(** ** Sextets and characters *)

Lemma sextets_sextet_chars q :
  Forall (fun n => (n < 64)%N) q -> sextets (sextet_chars q) = Some q.
Proof.
  induction 1 as [|n r Hn _ IH]; simpl; [reflexivity|].
  rewrite (char_sextet_sextet_char n Hn), IH. reflexivity.
Qed.

Lemma sextets_inv U q :
  sextets U = Some q ->
  Forall (fun n => (n < 64)%N) q /\ sextet_chars q = U.
Proof.
  revert q. induction U as [|c r IH]; simpl; intros q H.
  - inversion H. split; [constructor | reflexivity].
  - destruct (char_sextet c) as [n|] eqn:E; [|discriminate].
    destruct (sextets r) as [l|]; [|discriminate]. inversion H; subst.
    destruct (char_sextet_inv c n E) as [G L].
    destruct (IH l eq_refl) as [F S].
    split; [constructor; assumption | simpl; congruence].
Qed.

Lemma encode_sextets_bound s :
  Forall (fun n => (n < 64)%N) (encode_sextets s).
Proof.
  induction s as [|a|a b|a b c r IH] using string_ind3; simpl.
  - constructor.
  - pose proof (N_ascii_bounded a). repeat constructor; lia.
  - pose proof (N_ascii_bounded a). pose proof (N_ascii_bounded b).
    repeat constructor; lia.
  - pose proof (N_ascii_bounded a). pose proof (N_ascii_bounded b).
    pose proof (N_ascii_bounded c).
    repeat (constructor; [lia|]). exact IH.
Qed.

Lemma ascii_of_N_eq a n : n = N_of_ascii a -> ascii_of_N n = a.
Proof. intros ->. apply ascii_N_embedding. Qed.

Lemma decode_encode_sextets s : decode_sextets (encode_sextets s) = s.
Proof.
  induction s as [|a|a b|a b c r IH] using string_ind3; simpl.
  - reflexivity.
  - pose proof (N_ascii_bounded a). f_equal. apply ascii_of_N_eq. lia.
  - pose proof (N_ascii_bounded a). pose proof (N_ascii_bounded b).
    f_equal; [|f_equal]; apply ascii_of_N_eq; lia.
  - pose proof (N_ascii_bounded a). pose proof (N_ascii_bounded b).
    pose proof (N_ascii_bounded c).
    destruct (encode_sextets r) eqn:E;
      (f_equal; [|f_equal; [|f_equal]]; try (apply ascii_of_N_eq; lia)).
    + exact IH.
    + exact IH.
Qed.

Lemma canonical_encode_sextets s : canonical_tail (encode_sextets s) = true.
Proof.
  induction s as [|a|a b|a b c r IH] using string_ind3; simpl; auto.
  - apply N.eqb_eq. lia.
  - apply N.eqb_eq. lia.
Qed.

Lemma N_of_ascii_eq n m : (n < 256)%N -> n = m -> N_of_ascii (ascii_of_N n) = m.
Proof. intros H <-. apply N_ascii_embedding, H. Qed.

Lemma encode_decode_sextets q :
  Forall (fun n => (n < 64)%N) q -> canonical_tail q = true ->
  encode_sextets (decode_sextets q) = q.
Proof.
  induction q as [|a|a b|a b c|a b c d r IH] using list_ind4;
    intros F C.
  - reflexivity.
  - discriminate.
  - inversion F as [|? ? Ha F1]; subst. inversion F1 as [|? ? Hb _]; subst.
    simpl in C. apply N.eqb_eq in C. simpl.
    rewrite (N_of_ascii_eq (a * 4 + b / 16) (a * 4 + b / 16)) by lia.
    f_equal; [|f_equal]; lia.
  - inversion F as [|? ? Ha F1]; subst. inversion F1 as [|? ? Hb F2]; subst.
    inversion F2 as [|? ? Hc _]; subst.
    simpl in C. apply N.eqb_eq in C. simpl.
    rewrite (N_of_ascii_eq (a * 4 + b / 16) (a * 4 + b / 16)) by lia.
    rewrite (N_of_ascii_eq (b mod 16 * 16 + c / 4) (b mod 16 * 16 + c / 4)) by lia.
    f_equal; [|f_equal; [|f_equal]]; lia.
  - inversion F as [|? ? Ha F1]; subst. inversion F1 as [|? ? Hb F2]; subst.
    inversion F2 as [|? ? Hc F3]; subst. inversion F3 as [|? ? Hd F4]; subst.
    assert (E : decode_sextets (a :: b :: c :: d :: r) =
                String (ascii_of_N (a * 4 + b / 16))
                  (String (ascii_of_N (b mod 16 * 16 + c / 4))
                     (String (ascii_of_N (c mod 4 * 64 + d)) (decode_sextets r))))
      by reflexivity.
    rewrite E. clear E.
    assert (C' : canonical_tail r = true) by exact C.
    cbn [encode_sextets].
    rewrite (N_of_ascii_eq (a * 4 + b / 16) (a * 4 + b / 16)) by lia.
    rewrite (N_of_ascii_eq (b mod 16 * 16 + c / 4) (b mod 16 * 16 + c / 4)) by lia.
    rewrite (N_of_ascii_eq (c mod 4 * 64 + d) (c mod 4 * 64 + d)) by lia.
    rewrite (IH F4 C').
    f_equal; [|f_equal; [|f_equal; [|f_equal]]]; lia.
Qed.

Lemma padding_of_add4 n : padding_of (4 + n) = padding_of n.
Proof.
  unfold padding_of.
  replace ((4 + n) mod 4)%nat with (n mod 4)%nat; [reflexivity|].
  symmetry. replace (4 + n)%nat with (n + 1 * 4)%nat by lia.
  apply Nat.Div0.mod_add.
Qed.

Lemma btoa_unfold s :
  btoa s =
  sextet_chars (encode_sextets s)
  ++ repeat_char "=" (padding_of (List.length (encode_sextets s))).
Proof.
  induction s as [|a|a b|a b c r IH] using string_ind3.
  - reflexivity.
  - reflexivity.
  - reflexivity.
  - cbn [btoa encode_sextets sextet_chars List.length].
    change (S (S (S (S (List.length (encode_sextets r))))))
      with (4 + List.length (encode_sextets r))%nat.
    rewrite padding_of_add4, IH. reflexivity.
Qed.

(** ** The passes of [atob] on an alphabet text followed by padding *)

Lemma strip_whitespace_padded U q k :
  sextets U = Some q ->
  strip_whitespace (U ++ repeat_char "=" k) = U ++ repeat_char "=" k.
Proof.
  revert q. induction U as [|c r IH]; intros q H.
  - simpl. induction k; simpl; congruence.
  - simpl in H. destruct (char_sextet c) as [n|] eqn:E; [|discriminate].
    destruct (sextets r) as [l|] eqn:E2; [|discriminate].
    destruct (char_sextet_inv c n E) as [G L].
    destruct (sextet_char_plain n L) as [W _]. rewrite G in W.
    simpl. rewrite W. f_equal. apply (IH l). reflexivity.
Qed.

Lemma drop_padding_padded U q k :
  sextets U = Some q -> (k <= 2)%nat ->
  drop_padding (U ++ repeat_char "=" k) = U.
Proof.
  revert q. induction U as [|c r IH]; intros q H Hk.
  - destruct k as [|[|[|k]]]; try reflexivity. lia.
  - simpl in H. destruct (char_sextet c) as [n|] eqn:E; [|discriminate].
    destruct (sextets r) as [l|] eqn:E2; [|discriminate].
    destruct (char_sextet_inv c n E) as [G L].
    destruct (sextet_char_plain n L) as [_ [W _]]. rewrite G in W.
    simpl. rewrite W. simpl. f_equal. apply (IH l); [reflexivity | exact Hk].
Qed.

Lemma stripTrailingEquals_repeat k : stripTrailingEquals (repeat_char "=" k) = "".
Proof. induction k; simpl; [reflexivity|]. rewrite IHk. reflexivity. Qed.

Lemma stripTrailingEquals_padded U k :
  all_chars (fun c => negb (Ascii.eqb c "=")) U = true ->
  stripTrailingEquals (U ++ repeat_char "=" k) = U.
Proof.
  induction U as [|c r IH]; intros H.
  - apply stripTrailingEquals_repeat.
  - simpl in H. apply andb_true_iff in H. destruct H as [Hc Hr].
    apply negb_true_iff in Hc.
    simpl. rewrite (IH Hr). destruct r; [rewrite Hc|]; reflexivity.
Qed.

Lemma padding_of_cases n :
  (n mod 4 <> 1)%nat -> (padding_of n <= 2)%nat /\ ((n + padding_of n) mod 4 = 0)%nat.
Proof.
  unfold padding_of. intros H.
  assert (B : (n mod 4 < 4)%nat) by (apply Nat.mod_upper_bound; lia).
  rewrite Nat.Div0.add_mod by lia.
  destruct (n mod 4)%nat as [|[|[|[|m]]]] eqn:E; try lia; simpl; lia.
Qed.

Lemma padEnd_padding U :
  padEnd U (String.length U + padding_of (String.length U)) "="
  = U ++ repeat_char "=" (padding_of (String.length U)).
Proof. unfold padEnd. f_equal. f_equal. lia. Qed.

(** [atob] on a padding-free alphabet text, padded as the decoder pads. *)
Lemma atob_padded U q :
  sextets U = Some q -> (String.length U mod 4 <> 1)%nat ->
  atob (U ++ repeat_char "=" (padding_of (String.length U)))
  = Returns (decode_sextets q).
Proof.
  intros H L. unfold atob.
  rewrite (strip_whitespace_padded U q _ H).
  destruct (padding_of_cases _ L) as [P2 P0].
  rewrite length_append, length_repeat_char, P0, Nat.eqb_refl.
  rewrite (drop_padding_padded U q _ H P2).
  destruct (Nat.eqb (String.length U mod 4) 1) eqn:E.
  - apply Nat.eqb_eq in E. contradiction.
  - rewrite H. reflexivity.
Qed.

(** ** The URL-safe variant *)

Lemma replaceAll_twice a b c d s :
  replaceAll c d (replaceAll a b s)
  = map_string (fun x => let x1 := if Ascii.eqb x a then b else x in
                         if Ascii.eqb x1 c then d else x1) s.
Proof. induction s; simpl; [reflexivity | rewrite IHs; reflexivity]. Qed.

Lemma base64UrlToBase64_map s : base64UrlToBase64 s = map_string std_of_url s.
Proof. apply replaceAll_twice. Qed.

Lemma url_replace_map s :
  replaceAll "/" "_" (replaceAll "+" "-" s) = map_string url_of_std s.
Proof. apply replaceAll_twice. Qed.

Lemma map_string_append f s t :
  map_string f (s ++ t) = map_string f s ++ map_string f t.
Proof. induction s; simpl; congruence. Qed.

Lemma map_string_repeat_eq k :
  map_string url_of_std (repeat_char "=" k) = repeat_char "=" k.
Proof. induction k; simpl; [reflexivity|]. rewrite IHk. reflexivity. Qed.

Lemma sextet_char_url n :
  (n < 64)%N ->
  let c := sextet_char n in
  std_of_url (url_of_std c) = c /\ wire_char (url_of_std c) = true
  /\ is_base64url_char (url_of_std c) = true.
Proof.
  intros Hn.
  pose (P := fun n => let c := sextet_char n in
     Ascii.eqb (std_of_url (url_of_std c)) c && wire_char (url_of_std c)
     && is_base64url_char (url_of_std c)).
  assert (HP : P n = true)
    by (apply (N_below_forallb P 64); [vm_compute; reflexivity | exact Hn]).
  unfold P in HP. cbv zeta in *.
  repeat rewrite andb_true_iff in HP. rewrite Ascii.eqb_eq in HP. tauto.
Qed.

Lemma url_char_std c :
  is_base64url_char c = true ->
  url_of_std (std_of_url c) = c /\ char_sextet (std_of_url c) <> None.
Proof.
  destruct c as [[] [] [] [] [] [] [] []];
    intros H; vm_compute in H; try discriminate H;
    vm_compute; (split; [reflexivity | discriminate]).
Qed.

Lemma wire_of_sextet_chars q :
  Forall (fun n => (n < 64)%N) q ->
  let T := map_string url_of_std (sextet_chars q) in
  map_string std_of_url T = sextet_chars q
  /\ all_chars wire_char T = true
  /\ all_chars is_base64url_char T = true.
Proof.
  induction 1 as [|n r Hn _ IH]; simpl; [auto|].
  destruct (sextet_char_url n Hn) as [A [B C]].
  destruct IH as [IA [IB IC]].
  rewrite A, B, C, IA, IB, IC. auto.
Qed.

Lemma wire_char_no_eq T :
  all_chars wire_char T = true ->
  all_chars (fun c => negb (Ascii.eqb c "=")) T = true.
Proof.
  induction T as [|c r IH]; simpl; [reflexivity|].
  intros H. apply andb_true_iff in H. destruct H as [Hc Hr].
  unfold wire_char in Hc. repeat rewrite andb_true_iff in Hc.
  rewrite (IH Hr). destruct Hc as [_ ->]. reflexivity.
Qed.

Lemma url_of_std_of_url T :
  all_chars is_base64url_char T = true ->
  map_string url_of_std (map_string std_of_url T) = T.
Proof.
  induction T as [|c r IH]; simpl; [reflexivity|].
  intros H. apply andb_true_iff in H. destruct H as [Hc Hr].
  destruct (url_char_std c Hc) as [E _]. rewrite E, (IH Hr). reflexivity.
Qed.

Lemma canonical_tail_length q :
  canonical_tail q = true -> (List.length q mod 4 <> 1)%nat.
Proof.
  induction q as [|a|a b|a b c|a b c d r IH] using list_ind4; intros C.
  - discriminate.
  - discriminate C.
  - discriminate.
  - discriminate.
  - change (List.length (a :: b :: c :: d :: r)) with (4 + List.length r)%nat.
    replace (4 + List.length r)%nat with (List.length r + 1 * 4)%nat by lia.
    rewrite Nat.Div0.mod_add. apply IH, C.
Qed.

(** ** Encoding and decoding, unfolded *)

Lemma base64ToBase64Url_btoa s :
  base64ToBase64Url (btoa s)
  = map_string url_of_std (sextet_chars (encode_sextets s)).
Proof.
  unfold base64ToBase64Url.
  rewrite url_replace_map, btoa_unfold, map_string_append, map_string_repeat_eq.
  apply stripTrailingEquals_padded, wire_char_no_eq.
  apply (wire_of_sextet_chars _ (encode_sextets_bound s)).
Qed.

Lemma decode_of_sextets T q :
  sextets (base64UrlToBase64 T) = Some q ->
  (List.length q mod 4 <> 1)%nat ->
  base64UrlToArrayBuffer (JStr T)
  = ([], Returns (JUint8Array (bytes_of_string (decode_sextets q)))).
Proof.
  intros H L. unfold base64UrlToArrayBuffer.
  set (U := base64UrlToBase64 T) in *.
  destruct (sextets_inv U q H) as [F E].
  assert (LU : String.length U = List.length q)
    by (rewrite <- E; apply length_sextet_chars).
  change ((4 - String.length U mod 4) mod 4)%nat with (padding_of (String.length U)).
  rewrite padEnd_padding, (atob_padded U q H) by (rewrite LU; exact L).
  reflexivity.
Qed.

Lemma bytes_of_binary_string B : bytes_of_string (binary_string B) = B.
Proof.
  unfold bytes_of_string, binary_string.
  rewrite list_ascii_of_string_of_list_ascii, map_map.
  rewrite <- (map_id B) at 2. apply map_ext. apply byte_of_ascii_of_byte.
Qed.

Lemma binary_string_of_bytes s : binary_string (bytes_of_string s) = s.
Proof.
  unfold bytes_of_string, binary_string.
  rewrite map_map.
  rewrite (map_ext _ (fun c => c)) by apply ascii_of_byte_of_ascii.
  rewrite map_id. apply string_of_list_ascii_of_string.
Qed.

Lemma encode_bytes B :
  arrayBufferToBase64Url (JUint8Array B)
  = ([], Returns (base64ToBase64Url (btoa (binary_string B)))).
Proof. reflexivity. Qed.

Lemma decode_encode_bytes B :
  base64UrlToArrayBuffer (JStr (base64ToBase64Url (btoa (binary_string B))))
  = ([], Returns (JUint8Array B)).
Proof.
  set (s := binary_string B).
  rewrite base64ToBase64Url_btoa.
  pose proof (encode_sextets_bound s) as F.
  destruct (wire_of_sextet_chars _ F) as [A _].
  rewrite (decode_of_sextets _ (encode_sextets s)).
  - rewrite decode_encode_sextets. unfold s. rewrite bytes_of_binary_string. reflexivity.
  - rewrite base64UrlToBase64_map, A. apply sextets_sextet_chars, F.
  - apply canonical_tail_length, canonical_encode_sextets.
Qed.

Lemma encode_decode_text T :
  valid_wire_text T = true ->
  exists B,
    base64UrlToArrayBuffer (JStr T) = ([], Returns (JUint8Array B))
    /\ base64ToBase64Url (btoa (binary_string B)) = T.
Proof.
  unfold valid_wire_text. intros H. apply andb_true_iff in H. destruct H as [HA HC].
  destruct (sextets (base64UrlToBase64 T)) as [q|] eqn:E; [|discriminate].
  exists (bytes_of_string (decode_sextets q)). split.
  - apply decode_of_sextets; [exact E | apply canonical_tail_length, HC].
  - rewrite binary_string_of_bytes, base64ToBase64Url_btoa.
    destruct (sextets_inv _ _ E) as [F S].
    rewrite (encode_decode_sextets q F HC), S, base64UrlToBase64_map.
    apply url_of_std_of_url, HA.
Qed.

Lemma all_chars_In p s c :
  all_chars p s = true -> In c (list_ascii_of_string s) -> p c = true.
Proof.
  induction s as [|d r IH]; simpl; [tauto|].
  intros H [E|I]; apply andb_true_iff in H; destruct H as [Hd Hr].
  - congruence.
  - auto.
Qed.

Lemma encode_output buffer log T :
  arrayBufferToBase64Url buffer = (log, Returns T) ->
  exists bytes, T = base64ToBase64Url (btoa (binary_string bytes)).
Proof.
  unfold arrayBufferToBase64Url.
  destruct buffer; try discriminate.
  - destruct (Uint8Array_from items) as [bytes|e]; [|discriminate].
    intros H. inversion H. exists bytes. reflexivity.
  - intros H. inversion H. exists bytes. reflexivity.
  - intros H. inversion H. exists bytes. reflexivity.
Qed.

Lemma Uint8Array_from_numbers ns :
  exists bytes, Uint8Array_from (map JNum ns) = Returns bytes.
Proof.
  induction ns as [|n r [bytes IH]]; simpl; [eexists; reflexivity|].
  rewrite IH. eexists. reflexivity.
Qed.

(** The texts the encoder produces are exactly the valid wire texts. *)
Lemma encoded_text_valid B :
  valid_wire_text (base64ToBase64Url (btoa (binary_string B))) = true.
Proof.
  rewrite base64ToBase64Url_btoa. unfold valid_wire_text.
  pose proof (encode_sextets_bound (binary_string B)) as F.
  destruct (wire_of_sextet_chars _ F) as [A [_ C]].
  rewrite C, base64UrlToBase64_map, A, (sextets_sextet_chars _ F).
  apply canonical_encode_sextets.
Qed.

(** The decoder also accepts texts that are not canonical, and those do
    not come back: "QR" decodes to the byte of "QQ". *)
Example decode_not_canonical :
  base64UrlToArrayBuffer (JStr "QR") = ([], Returns (JUint8Array ["A"%byte]))
  /\ arrayBufferToBase64Url (JUint8Array ["A"%byte]) = ([], Returns "QQ")
  /\ valid_wire_text "QR" = false.
Proof. repeat split; reflexivity. Qed.

(** C2. The codec is self-inverse: decoding the encoding of a byte
    sequence B gives B back, encoding the decoding of a valid
    padding-free URL-safe wire text T gives T back, and the empty byte
    sequence and the empty text correspond. *)
Theorem codec_round_trip (B : list byte) (T : string) :
  valid_wire_text T = true ->
  (exists T', arrayBufferToBase64Url (JUint8Array B) = ([], Returns T')
              /\ base64UrlToArrayBuffer (JStr T') = ([], Returns (JUint8Array B)))
  /\ (exists B', base64UrlToArrayBuffer (JStr T) = ([], Returns (JUint8Array B'))
                 /\ arrayBufferToBase64Url (JUint8Array B') = ([], Returns T))
  /\ arrayBufferToBase64Url (JUint8Array []) = ([], Returns "")
  /\ base64UrlToArrayBuffer (JStr "") = ([], Returns (JUint8Array [])).
Proof.
  intros HT. repeat split.
  - exists (base64ToBase64Url (btoa (binary_string B))).
    split; [apply encode_bytes | apply decode_encode_bytes].
  - destruct (encode_decode_text T HT) as [B' [D E]].
    exists B'. split; [exact D|]. rewrite encode_bytes, E. reflexivity.
Qed.

Lemma codec_round_trip_witness :
  valid_wire_text "aGk_" = true
  /\ (exists B', base64UrlToArrayBuffer (JStr "aGk_") = ([], Returns (JUint8Array B'))
                 /\ arrayBufferToBase64Url (JUint8Array B') = ([], Returns "aGk_")).
Proof.
  split; [reflexivity|].
  exact (proj1 (proj2 (codec_round_trip (bytes_of_string "hi?") "aGk_" eq_refl))).
Defined.

(** C3. Whatever input [arrayBufferToBase64Url] accepts, the text it
    returns has no "+", no "/" and no "=". *)
Theorem encoding_is_wire_safe (buffer : JsValue) (log : list (list JsValue))
    (T : string) (c : ascii) :
  arrayBufferToBase64Url buffer = (log, Returns T) ->
  In c (list_ascii_of_string T) ->
  c <> "+"%char /\ c <> "/"%char /\ c <> "="%char.
Proof.
  intros H I. destruct (encode_output _ _ _ H) as [bytes ->].
  rewrite base64ToBase64Url_btoa in I.
  destruct (wire_of_sextet_chars _ (encode_sextets_bound (binary_string bytes)))
    as [_ [W _]].
  pose proof (all_chars_In _ _ _ W I) as Hc. unfold wire_char in Hc.
  repeat rewrite andb_true_iff in Hc. repeat rewrite negb_true_iff in Hc.
  destruct Hc as [[P S] E].
  repeat split; intros ->; discriminate.
Qed.

Lemma encoding_is_wire_safe_witness :
  "_"%char <> "+"%char /\ "_"%char <> "/"%char /\ "_"%char <> "="%char.
Proof.
  apply (encoding_is_wire_safe (JArr [JNum 255; JNum 255]) [] "__8" "_"%char).
  - reflexivity.
  - simpl. tauto.
Defined.

(** C4. [base64UrlToArrayBuffer] throws a TypeError on every input that
    is not a string; [arrayBufferToBase64Url] returns a text on every
    Uint8Array, ArrayBuffer and array of numbers, and throws its
    unsupported-input error on every value of another shape. *)
Theorem codec_input_shapes (v w : JsValue) (bytes : list byte) (ns : list Z) :
  (forall s, v <> JStr s) ->
  is_buffer_shape w = false ->
  base64UrlToArrayBuffer v
    = ([[JStr decode_type_error_msg; v]], Throws (TypeError decode_type_error_msg))
  /\ (exists T, arrayBufferToBase64Url (JUint8Array bytes) = ([], Returns T))
  /\ (exists T, arrayBufferToBase64Url (JArrayBuffer bytes) = ([], Returns T))
  /\ (exists T, arrayBufferToBase64Url (JArr (map JNum ns)) = ([], Returns T))
  /\ arrayBufferToBase64Url w
     = ([[JStr encode_error_msg; w]], Throws (Error encode_error_msg)).
Proof.
  intros Hv Hw. repeat split.
  - destruct v; try reflexivity. exfalso. apply (Hv s). reflexivity.
  - eexists. reflexivity.
  - eexists. reflexivity.
  - unfold arrayBufferToBase64Url.
    destruct (Uint8Array_from_numbers ns) as [bs ->]. eexists. reflexivity.
  - destruct w; try reflexivity; discriminate Hw.
Qed.

Lemma codec_input_shapes_witness :
  base64UrlToArrayBuffer (JUint8Array [x01])
    = ([[JStr decode_type_error_msg; JUint8Array [x01]]],
       Throws (TypeError decode_type_error_msg))
  /\ arrayBufferToBase64Url (JStr "AQ")
     = ([[JStr encode_error_msg; JStr "AQ"]], Throws (Error encode_error_msg)).
Proof.
  destruct (codec_input_shapes (JUint8Array [x01]) (JStr "AQ") [x01] [1%Z])
    as [A [_ [_ [_ B]]]].
  - intros s. discriminate.
  - reflexivity.
  - split; [exact A | exact B].
Defined.

(* ================================================================= *)
(** * Properties of the error normalizer *)

Lemma isErrorWithMessage_field v :
  isErrorWithMessage v
  = Returns (match message_field v with Some _ => true | None => false end).
Proof.
  destruct v; try reflexivity.
  unfold isErrorWithMessage, hasProperty, getProp, message_field. simpl.
  destruct (lookup "message" props) as [x|]; simpl; [|reflexivity].
  destruct x; reflexivity.
Qed.

Lemma getProp_message_field v m :
  message_field v = Some m -> getProp v "message" = Returns (JStr m).
Proof.
  destruct v; try discriminate.
  - unfold message_field, getProp. simpl.
    destruct (lookup "message" props) as [x|]; [|discriminate].
    destruct x; try discriminate. intros H. inversion H. reflexivity.
  - simpl. intros H. inversion H. reflexivity.
Qed.


Lemma getErrorMessage_value v :
  getErrorMessage v
  = Returns (JStr match message_field v with
                  | Some message => message
                  | None =>
                      match stringify v with
                      | Returns (Some text) => text
                      | Returns None => ""
                      | Throws _ => ToString v
                      end
                  end).
Proof.
  unfold getErrorMessage, toErrorWithMessage.
  rewrite isErrorWithMessage_field.
  destruct (message_field v) as [m|] eqn:F.
  - apply getProp_message_field, F.
  - unfold JSON_stringify.
    destruct (stringify v) as [[text|]|e]; reflexivity.
Qed.

(* ================================================================= *)
(** * Running: general facts *)

Section RunFacts.

Variable env : Env.

Lemma after_nil {A} (r : Completion A * ClientState * list Event) :
  after [] r = r.
Proof. destruct r as [[o s] evs]. reflexivity. Qed.

Lemma run_Vis {A X} (e : Effect X) (k : X -> Async A) st :
  run env (Vis e k) st
  = after (snd (perform env e st))
      (run env (k (fst (fst (perform env e st)))) (snd (fst (perform env e st)))).
Proof.
  simpl. destruct (perform env e st) as [[x st1] evs]. simpl.
  destruct (run env (k x) st1) as [[r st2] evs']. reflexivity.
Qed.

Lemma run_bind {A B} (p : Async A) (f : A -> Async B) st :
  run env (bind p f) st
  = match outcome (run env p st) with
    | Returns a =>
        after (events (run env p st)) (run env (f a) (final_state (run env p st)))
    | Throws e => (Throws e, final_state (run env p st), events (run env p st))
    end.
Proof.
  revert st. induction p as [a|e|X e k IH]; intros st.
  - simpl. rewrite after_nil. reflexivity.
  - reflexivity.
  - change (bind (Vis e k) f) with (Vis e (fun x => bind (k x) f)).
    rewrite !run_Vis.
    destruct (perform env e st) as [[x st1] evs]. simpl fst. simpl snd.
    rewrite IH.
    destruct (run env (k x) st1) as [[[a|e'] st2] evs']; simpl.
    + unfold after. simpl. rewrite app_assoc. reflexivity.
    + reflexivity.
Qed.

Lemma run_try_catch {A} (p : Async A) (h : JsValue -> Async A) st :
  run env (try_catch p h) st
  = match outcome (run env p st) with
    | Returns a => run env p st
    | Throws e =>
        after (events (run env p st)) (run env (h e) (final_state (run env p st)))
    end.
Proof.
  revert st. induction p as [a|e|X e k IH]; intros st.
  - reflexivity.
  - simpl. rewrite after_nil. reflexivity.
  - change (try_catch (Vis e k) h) with (Vis e (fun x => try_catch (k x) h)).
    rewrite !run_Vis.
    destruct (perform env e st) as [[x st1] evs]. simpl fst. simpl snd.
    rewrite IH.
    destruct (run env (k x) st1) as [[[a|e'] st2] evs']; simpl.
    + reflexivity.
    + unfold after. simpl. rewrite app_assoc. reflexivity.
Qed.

(** One stage of a [try] block. *)
Lemma run_try_bind {A B} (p : Async A) (f : A -> Async B) h st :
  run env (try_catch (bind p f) h) st
  = after (events (run env p st))
      match outcome (run env p st) with
      | Returns a => run env (try_catch (f a) h) (final_state (run env p st))
      | Throws e => run env (h e) (final_state (run env p st))
      end.
Proof.
  rewrite run_try_catch, run_bind.
  destruct (run env p st) as [[[a|e] st1] evs];
    cbn [outcome final_state events fst snd].
  - rewrite run_try_catch.
    destruct (run env (f a) st1) as [[[b|e] st2] evs2];
      unfold after; cbn [outcome final_state events fst snd].
    + reflexivity.
    + rewrite app_assoc. reflexivity.
  - reflexivity.
Qed.

Lemma run_lift {A} (c : Completion A) st : run env (lift c) st = (c, st, []).
Proof. destruct c; reflexivity. Qed.

Lemma perform_kinds {X} (e : Effect X) st :
  Forall (fun ev => event_kind ev = effect_kind e) (snd (perform env e st)).
Proof. destruct e; simpl; repeat constructor. Qed.

(** What a program can do bounds what a run of it shows. *)
Lemma Uses_run allowed {A} (p : Async A) st :
  Uses allowed p ->
  Forall (fun ev => allowed (event_kind ev)) (events (run env p st)).
Proof.
  intros U. revert st. induction U as [a|e|X e k He _ IH]; intros st.
  - constructor.
  - constructor.
  - rewrite run_Vis. unfold after, events. simpl.
    apply Forall_app. split.
    + pose proof (perform_kinds e st) as K.
      eapply Forall_impl; [|exact K]. simpl. intros ev ->. exact He.
    + apply IH.
Qed.

End RunFacts.

Lemma Uses_bind allowed {A B} (p : Async A) (f : A -> Async B) :
  Uses allowed p -> (forall a, Uses allowed (f a)) -> Uses allowed (bind p f).
Proof.
  intros U F. induction U; simpl; auto; constructor; auto.
Qed.

Lemma Uses_try_catch allowed {A} (p : Async A) h :
  Uses allowed p -> (forall e, Uses allowed (h e)) -> Uses allowed (try_catch p h).
Proof.
  intros U F. induction U; simpl; auto; constructor; auto.
Qed.

Lemma Uses_lift allowed {A} (c : Completion A) : Uses allowed (lift c).
Proof. destruct c; constructor. Qed.

Lemma Uses_trigger allowed {X} (e : Effect X) :
  allowed (effect_kind e) -> Uses allowed (trigger e).
Proof. intros H. constructor; [exact H | intros; constructor]. Qed.

Lemma Uses_await allowed {A} (e : Effect (Completion A)) :
  allowed (effect_kind e) -> Uses allowed (await e).
Proof. intros H. constructor; [exact H | intros; apply Uses_lift]. Qed.

Lemma Uses_console_errors allowed log :
  allowed KConsole -> Uses allowed (console_errors log).
Proof. intros H. induction log; simpl; constructor; auto. Qed.

Lemma Uses_logged allowed {A} (c : Logged (Completion A)) :
  allowed KConsole -> Uses allowed (logged c).
Proof.
  intros H. apply Uses_bind; [apply Uses_console_errors, H | intros; apply Uses_lift].
Qed.


(* ================================================================= *)
(** * The ceremonies: what each part can do *)

Lemma append_inv_head (s a b : string) : s ++ a = s ++ b -> a = b.
Proof. induction s as [|c r IH]; simpl; intros H; [exact H|]. inversion H. auto. Qed.

Ltac kinds :=
  repeat split; try discriminate; try tauto;
  try (let K := fresh in
       intros K; inversion K as [K'];
       apply append_inv_head in K'; discriminate K').

Lemma Uses_forEach allowed f items :
  (forall x, Uses allowed (f x)) -> Uses allowed (forEach f items).
Proof.
  intros F. induction items as [|x r IH]; simpl; [constructor|].
  apply Uses_bind; [apply F|]. intros x'.
  apply Uses_bind; [apply IH|]. intros r'. constructor.
Qed.

Ltac uses_step :=
  first
    [ apply Uses_Ret
    | apply Uses_Throw
    | apply Uses_lift
    | apply Uses_logged
    | apply Uses_trigger
    | apply Uses_await
    | apply Uses_forEach; intros
    | apply Uses_bind; [|intros]
    | apply Uses_try_catch; [|intros]
    | match goal with
      | |- Uses _ (if ?b then _ else _) => destruct b
      | |- Uses _ (match ?x with _ => _ end) => destruct x
      | |- Uses _ (let _ := _ in _) => cbv zeta
      end ].

Ltac uses := repeat uses_step; try (cbn [effect_kind]; kinds).

Section Parts.

Variable config : Config.
Variable allowed : Kind -> Prop.

Lemma Uses_decodeField obj field :
  allowed KConsole -> Uses allowed (decodeField obj field).
Proof. intros. unfold decodeField. uses. Qed.

Lemma Uses_decodeId cred : allowed KConsole -> Uses allowed (decodeId cred).
Proof. intros. unfold decodeId. uses. Qed.

Lemma Uses_decodeIds list : allowed KConsole -> Uses allowed (decodeIds list).
Proof.
  intros. unfold decodeIds.
  destruct list; uses; try apply Uses_decodeId; assumption.
Qed.

Lemma Uses_normalize e : allowed KConsole -> Uses allowed (normalize e).
Proof. intros. unfold normalize. uses. Qed.

Lemma Uses_assertBrowserSupported :
  allowed KPage -> Uses allowed assertBrowserSupported.
Proof. intros. unfold assertBrowserSupported, isBrowserSupported. uses. Qed.

Lemma Uses_post url payload :
  allowed (KFetch url) -> Uses allowed (post config url payload).
Proof. intros. unfold post. uses. Qed.

Lemma Uses_result_of response : allowed KJson -> Uses allowed (result_of response).
Proof. intros. unfold result_of. uses. Qed.

Lemma Uses_callMethod v name : Uses allowed (callMethod v name).
Proof. unfold callMethod. uses. Qed.

Lemma Uses_registerBegin token :
  allowed (KFetch (apiUrl config ++ "/register/begin")) -> allowed KJson ->
  Uses allowed (registerBegin config token).
Proof.
  intros. unfold registerBegin.
  apply Uses_bind; [apply Uses_post; assumption | intros; apply Uses_result_of; assumption].
Qed.

Lemma Uses_signinBegin m :
  allowed (KFetch (apiUrl config ++ "/signin/begin")) -> allowed KJson ->
  Uses allowed (signinBegin config m).
Proof.
  intros. unfold signinBegin.
  apply Uses_bind; [apply Uses_lift|]. intros.
  apply Uses_bind; [apply Uses_post; assumption | intros; apply Uses_result_of; assumption].
Qed.

Lemma Uses_registerComplete credential session nickname :
  allowed KConsole ->
  allowed (KFetch (apiUrl config ++ "/register/complete")) -> allowed KJson ->
  Uses allowed (registerComplete config credential session nickname).
Proof.
  intros. unfold registerComplete.
  repeat first [ apply Uses_post; assumption
               | apply Uses_result_of; assumption
               | apply Uses_callMethod
               | apply Uses_logged; assumption
               | apply Uses_lift
               | apply Uses_bind; [|intros] ].
Qed.

Lemma Uses_signinComplete credential session :
  allowed KConsole ->
  allowed (KFetch (apiUrl config ++ "/signin/complete")) -> allowed KJson ->
  Uses allowed (signinComplete config credential session).
Proof.
  intros. unfold signinComplete.
  repeat first [ apply Uses_post; assumption
               | apply Uses_result_of; assumption
               | apply Uses_callMethod
               | apply Uses_logged; assumption
               | apply Uses_lift
               | apply Uses_bind; [|intros] ].
Qed.

Lemma Uses_isAutofillSupported :
  allowed KPage -> allowed KProbe -> Uses allowed isAutofillSupported.
Proof.
  intros. unfold isAutofillSupported.
  constructor; [assumption|]. intros [| |callable [settled|]]; uses.
Qed.

Lemma Uses_handleAbort : allowed KController -> Uses allowed handleAbort.
Proof. intros. unfold handleAbort, abort. uses. Qed.

End Parts.

(* ================================================================= *)
(** * The ceremonies: how a run goes *)

Section Ceremonies.

Variable env : Env.
Variable config : Config.

Lemma run_assertBrowserSupported st :
  run env assertBrowserSupported st
  = (if supported env then Returns tt else Throws (Error unsupported_msg), st, []).
Proof.
  unfold supported. cbn.
  destruct (publicKeyCredential env) as [| |[|] ?]; reflexivity.
Qed.

Lemma run_normalize e st :
  exists title,
    getErrorMessage e = Returns (JStr title)
    /\ run env (normalize e) st
       = (Returns (JObj [("error", unknown_error title)]), st,
          [EvConsoleError [e]; EvConsoleError [unknown_error title]]).
Proof.
  eexists. split; [apply getErrorMessage_value|].
  unfold normalize. rewrite run_bind, run_lift, getErrorMessage_value.
  reflexivity.
Qed.

Lemma run_await {A} (e : Effect (Completion A)) st :
  run env (await e) st
  = (fst (fst (perform env e st)), snd (fst (perform env e st)),
     snd (perform env e st)).
Proof.
  unfold await. rewrite run_Vis, run_lift. unfold after. cbn.
  rewrite app_nil_r. reflexivity.
Qed.

Lemma events_after {A} evs (r : Completion A * ClientState * list Event) :
  events (after evs r) = (evs ++ events r)%list.
Proof. reflexivity. Qed.

Lemma outcome_after {A} evs (r : Completion A * ClientState * list Event) :
  outcome (after evs r) = outcome r.
Proof. reflexivity. Qed.

(** A statement about the runs that show [ev] passes through a prefix of
    events none of which can be [ev]. *)
Lemma through_prefix {A} (ev : Event) (harmless : Kind -> Prop)
    (good : Completion A -> Prop) (clean : Kind -> Prop) pre
    (r : Completion A * ClientState * list Event) :
  ~ harmless (event_kind ev) ->
  (forall k, harmless k -> clean k) ->
  Forall (fun e => harmless (event_kind e)) pre ->
  Holds ev good clean r ->
  Holds ev good clean (after pre r).
Proof.
  unfold Holds. intros Hev Hc Hpre Hr Hin.
  rewrite events_after in *. rewrite outcome_after.
  apply in_app_or in Hin. destruct Hin as [Hin|Hin].
  - rewrite Forall_forall in Hpre. exfalso. apply Hev, (Hpre _ Hin).
  - destruct (Hr Hin) as [G C]. split; [exact G|].
    apply Forall_app. split; [|exact C].
    eapply Forall_impl; [|exact Hpre]. intros e. apply Hc.
Qed.

(** A run none of whose events can be [ev] satisfies the statement. *)
Lemma without_event {A} (ev : Event) (harmless : Kind -> Prop)
    (good : Completion A -> Prop) (clean : Kind -> Prop)
    (r : Completion A * ClientState * list Event) :
  ~ harmless (event_kind ev) ->
  Forall (fun e => harmless (event_kind e)) (events r) ->
  Holds ev good clean r.
Proof.
  intros Hev H Hin. rewrite Forall_forall in H. exfalso. apply Hev, (H _ Hin).
Qed.

End Ceremonies.

(** One stage of a [try] block whose effects are all of the kinds
    [harmless]: the stage is run, its events are known to be harmless,
    and the proof goes on with each way the stage can end. *)
Ltac stage hk :=
  rewrite run_try_bind;
  match goal with
  | |- context [events (run ?en ?p ?s0)] =>
      let U := fresh "U" in
      assert (U : Uses hk p);
      [ | apply (Uses_run en hk p s0) in U;
          apply through_prefix with (harmless := hk);
          [ | | exact U | clear U;
                destruct (run en p s0) as [[[?a|?e] ?st] ?evs];
                cbn [outcome final_state events fst snd]; cbv beta zeta ] ]
  end.

(** The end of a branch: what is left to run cannot show the event. *)
Ltac dead_end hk :=
  match goal with
  | |- Holds _ _ _ (run ?env ?p ?st) =>
      apply without_event with (harmless := hk);
      [ | apply Uses_run ]
  end.

Ltac url_neq :=
  match goal with
  | H : KFetch (?a ++ _) = KFetch (?a ++ _) |- _ =>
      let H' := fresh in
      inversion H as [H']; apply append_inv_head in H'; discriminate H'
  end.

(** The side conditions on kinds: an effect is of a kind that is
    allowed, the event looked for is not, one set of kinds is within
    another. *)
Ltac side :=
  intros; cbn [effect_kind event_kind] in *;
  repeat match goal with x := _ |- _ => subst x end;
  unfold excludes in *; cbn [In] in *;
  solve [ intuition (subst; try discriminate; try congruence; try url_neq; auto) ].

Ltac part :=
  first
    [ apply Uses_assertBrowserSupported
    | apply Uses_isAutofillSupported
    | apply Uses_handleAbort
    | apply Uses_registerBegin
    | apply Uses_signinBegin
    | apply Uses_decodeField
    | apply Uses_decodeIds
    | apply Uses_normalize
    | apply Uses_registerComplete
    | apply Uses_signinComplete
    | apply Uses_result_of
    | apply Uses_lift
    | apply Uses_await
    | apply Uses_trigger
    | apply Uses_Ret
    | apply Uses_Throw
    | apply Uses_bind; [|intros]
    | apply Uses_try_catch; [|intros]
    | match goal with
      | |- Uses _ (if ?b then _ else _) => destruct b
      end ].

Ltac parts := repeat part; side.

(** A stage that cannot show the event: both ways it ends are left,
    the throwing one closed when the handler cannot show it either. *)
Ltac go hk :=
  stage hk;
  [ solve [parts] | solve [side] | solve [side] |
  | try solve [dead_end hk; [side | parts]] ].

Section Runs.

Variable env : Env.
Variable config : Config.

Lemma not_in_run allowed {A} (p : Async A) st ev :
  Uses allowed p -> ~ allowed (event_kind ev) -> ~ In ev (events (run env p st)).
Proof.
  intros U N I. apply (Uses_run env) with (st := st) in U.
  rewrite Forall_forall in U. apply N, (U _ I).
Qed.

Lemma getProp_total v k x k' :
  getProp v k = Returns x -> exists y, getProp v k' = Returns y.
Proof. destruct v; try discriminate; intros _; eexists; reflexivity. Qed.

(** A statement about the runs that show [ev] passes through a first part
    that cannot show it. *)
Lemma through_bind {A B} ev harmless (good : Completion B -> Prop) clean
    (p : Async A) (f : A -> Async B) st :
  Uses harmless p ->
  ~ harmless (event_kind ev) ->
  (forall k, harmless k -> clean k) ->
  (forall a st', Holds ev good clean (run env (f a) st')) ->
  Holds ev good clean (run env (bind p f) st).
Proof.
  intros U N C F. rewrite run_bind.
  apply (Uses_run env) with (st := st) in U.
  destruct (run env p st) as [[[a|e] st1] evs];
    cbn [outcome final_state events fst snd] in *.
  - apply through_prefix with (harmless := harmless); auto.
  - apply without_event with (harmless := harmless); auto.
Qed.

(** The request of a ceremony step and the reading of its answer. *)
Lemma run_request url payload text st :
  JSON_stringify payload = Returns text ->
  run env (bind (post config url payload) (fun response => result_of response)) st
  = let init := request config text in
    match fetch env url init with
    | Throws e => (Throws e, st, [EvFetch url init (Throws e)])
    | Returns response =>
        (match json response with
         | Throws e => Throws e
         | Returns res =>
             Returns (if ok response then res
                      else JObj [("error", spread_with res "from" (JStr "server"))])
         end,
         st,
         [EvFetch url init (Returns response); EvJson response (json response)])
    end.
Proof.
  intros T. unfold post, result_of.
  rewrite run_bind, run_bind, run_lift, T.
  cbn [outcome final_state events fst snd]. rewrite after_nil, run_await.
  cbn [perform fst snd outcome final_state events]. unfold request.
  destruct (fetch env url _) as [response|e]; [|reflexivity].
  rewrite run_bind, run_await.
  cbn [perform fst snd outcome final_state events].
  destruct (json response) as [res|e]; [|reflexivity].
  destruct (ok response); reflexivity.
Qed.

(* ----------------------------------------------------------------- *)
(** ** Registration *)

Lemma create_null_case st token nickname publicKey :
  Holds (EvCreate publicKey (Returns JNull))
    (fun o => o = Returns (JObj [("error", failed_create_credential)]))
    (fun k => k <> KFetch (apiUrl config ++ "/register/complete"))
    (run env (register config token nickname) st).
Proof.
  unfold register.
  pose (early := excludes [KCreate; KFetch (apiUrl config ++ "/register/complete")]).
  go early.
  go early.
  go early.
  destruct (truthy a1).
  { dead_end early; [side | parts]. }
  go early.
  go early.
  go early.
  go early.
  go early.
  go early.
  rewrite run_try_bind, run_await. cbn [perform fst snd outcome events final_state].
  set (ans := credentials_create env _).
  intros Hin. rewrite events_after in Hin. cbn [events snd app] in Hin.
  destruct Hin as [Heq|Hin].
  - assert (Ha : ans = Returns JNull) by (inversion Heq; reflexivity).
    rewrite Ha. cbn. split; [reflexivity|]. repeat constructor; discriminate.
  - exfalso. revert Hin. destruct ans as [credential|e].
    + apply not_in_run with (allowed := excludes [KCreate]); [parts | side].
    + apply not_in_run with (allowed := excludes [KCreate]); [parts | side].
Qed.

Lemma begin_error_case st token nickname init response E :
  ok response = false ->
  json response = Returns E ->
  Holds (EvFetch (apiUrl config ++ "/register/begin") init (Returns response))
    (fun o => o = Returns (JObj [("error", spread_with E "from" (JStr "server"))]))
    (fun k => k <> KCreate /\ k <> KGet)
    (run env (register config token nickname) st).
Proof.
  intros Hok Hjson. unfold register.
  set (url := apiUrl config ++ "/register/begin").
  go (excludes [KFetch url; KCreate; KGet]).
  rewrite run_try_bind. unfold registerBegin. fold url.
  erewrite run_request by reflexivity. cbv zeta.
  set (init0 := request config _).
  destruct (fetch env url init0) as [response0|e];
    cbn [outcome final_state events fst snd].
  - intros Hin. rewrite events_after in Hin. cbn [app] in Hin.
    destruct Hin as [Heq|[Heq|Hin]]; [|discriminate Heq|].
    + assert (R : response0 = response) by (inversion Heq; reflexivity).
      subst response0. rewrite Hjson, Hok. cbn.
      split; [reflexivity|]. repeat constructor; discriminate.
    + exfalso. revert Hin.
      destruct (json response0) as [res|e].
      * apply not_in_run with (allowed := excludes [KFetch url]); [parts | side].
      * apply not_in_run with (allowed := excludes [KFetch url]); [parts | side].
  - intros Hin. rewrite events_after in Hin. cbn [app] in Hin.
    destruct Hin as [Heq|Hin]; [discriminate Heq|].
    exfalso. revert Hin.
    apply not_in_run with (allowed := excludes [KFetch url]); [parts | side].
Qed.


(* ----------------------------------------------------------------- *)
(** ** Sign-in *)

Lemma get_null_case st signinMethod publicKey mediation signal :
  Holds (EvGet publicKey mediation signal (Returns JNull))
    (fun o => o = Returns (JObj [("error", unknown_error null_response_msg)]))
    (fun k => k <> KFetch (apiUrl config ++ "/signin/complete"))
    (run env (signin config signinMethod) st).
Proof.
  unfold signin.
  pose (early := excludes [KGet; KFetch (apiUrl config ++ "/signin/complete")]).
  go early.
  go early.
  go early.
  rewrite run_try_bind, run_lift. cbn [outcome final_state events fst snd].
  rewrite after_nil.
  destruct (getProp a1 "error") as [error|e] eqn:E;
    [| dead_end early; [side | parts] ].
  destruct (getProp_total _ _ _ "session" E) as [session S].
  destruct (truthy error).
  { dead_end early; [side | parts]. }
  go early.
  go early.
  go early.
  go early.
  go early.
  go early.
  rewrite run_try_bind, run_await. cbn [perform fst snd outcome events final_state].
  set (ans := if is_aborted _ _ then _ else _).
  intros Hin. rewrite events_after in Hin. cbn [events snd app] in Hin.
  destruct Hin as [Heq|Hin].
  - assert (Ha : ans = Returns JNull) by (inversion Heq; reflexivity).
    rewrite Ha, S. cbn. split; [reflexivity|]. repeat constructor; discriminate.
  - exfalso. revert Hin. destruct ans as [credential|e].
    + apply not_in_run with (allowed := excludes [KGet]); [parts | side].
    + apply not_in_run with (allowed := excludes [KGet]); [parts | side].
Qed.

Lemma get_null_case_call st m publicKey mediation signal :
  Holds (EvGet publicKey mediation signal (Returns JNull))
    (fun o => o = Returns (JObj [("error", unknown_error null_response_msg)]))
    (fun k => k <> KFetch (apiUrl config ++ "/signin/complete"))
    (run env (signinCall config m) st).
Proof.
  destruct m as [[userId|alias| |]|]; try apply get_null_case.
  cbn [signinCall signinWith]. unfold signinWithAutofill.
  apply through_bind
    with (harmless := excludes [KGet; KFetch (apiUrl config ++ "/signin/complete")]);
    [parts | side | side |].
  intros a st'. destruct (negb (truthy a)).
  - intros Hin. destruct Hin.
  - apply get_null_case.
Qed.

Lemma begin_request_case st m init answer :
  Holds (EvFetch (apiUrl config ++ "/signin/begin") init answer)
    (fun _ => JSON_stringify (signin_payload config m) = Returns (body init))
    (fun _ => True)
    (run env (signin config (selector_opt m)) st).
Proof.
  unfold signin.
  set (url := apiUrl config ++ "/signin/begin").
  go (excludes [KFetch url]).
  go (excludes [KFetch url]).
  rewrite run_try_bind. unfold signinBegin. fold url.
  rewrite run_bind, run_lift.
  assert (P : signinBeginPayload config
                (if negb (truthy (selector_opt m))
                 then JObj [("discoverable", JBool true)] else selector_opt m)
              = Returns (signin_payload config m))
    by (destruct m as [[userId|alias| |]|]; reflexivity).
  rewrite P. cbn [outcome final_state events fst snd]. rewrite after_nil.
  assert (T : exists text, JSON_stringify (signin_payload config m) = Returns (JStr text))
    by (destruct m as [[userId|alias| |]|]; eexists; reflexivity).
  destruct T as [text T].
  rewrite (run_request url _ _ _ T). cbv zeta.
  destruct (fetch env url (request config (JStr text))) as [response0|e];
    cbn [outcome final_state events fst snd].
  - intros Hin. rewrite events_after in Hin. cbn [app] in Hin.
    destruct Hin as [Heq|[Heq|Hin]]; [|discriminate Heq|].
    + inversion Heq; subst. split; [exact T|].
      apply Forall_forall. intros; exact I.
    + exfalso. revert Hin.
      destruct (json response0) as [res|e].
      * apply not_in_run with (allowed := excludes [KFetch url]); [parts | side].
      * apply not_in_run with (allowed := excludes [KFetch url]); [parts | side].
  - intros Hin. rewrite events_after in Hin. cbn [app] in Hin.
    destruct Hin as [Heq|Hin].
    + inversion Heq; subst. split; [exact T|].
      apply Forall_forall. intros; exact I.
    + exfalso. revert Hin.
      apply not_in_run with (allowed := excludes [KFetch url]); [parts | side].
Qed.

Lemma begin_request_case_call st m init answer :
  Holds (EvFetch (apiUrl config ++ "/signin/begin") init answer)
    (fun _ => JSON_stringify (signin_payload config m) = Returns (body init))
    (fun _ => True)
    (run env (signinCall config m) st).
Proof.
  destruct m as [[userId|alias| |]|].
  - apply (begin_request_case st (Some (ByUserId userId))).
  - apply (begin_request_case st (Some (ByAlias alias))).
  - cbn [signinCall signinWith]. unfold signinWithAutofill.
    apply through_bind
      with (harmless := excludes [KFetch (apiUrl config ++ "/signin/begin")]);
      [parts | side | auto |].
    intros a st'. destruct (negb (truthy a)).
    + intros Hin. destruct Hin.
    + apply (begin_request_case st' (Some Autofill)).
  - apply (begin_request_case st (Some Discoverable)).
  - apply (begin_request_case st None).
Qed.

(* ----------------------------------------------------------------- *)
(** ** Without WebAuthn *)

Lemma register_unsupported st token nickname :
  supported env = false ->
  run env (register config token nickname) st
  = (Returns unsupported_result, st, unsupported_events).
Proof.
  intros H. unfold register.
  rewrite run_try_bind, run_assertBrowserSupported, H. reflexivity.
Qed.

Lemma signin_unsupported st signinMethod :
  supported env = false ->
  run env (signin config signinMethod) st
  = (Returns unsupported_result, st, unsupported_events).
Proof.
  intros H. unfold signin.
  rewrite run_try_bind, run_assertBrowserSupported, H. reflexivity.
Qed.

Lemma signinWithAutofill_unsupported st :
  supported env = false ->
  let r := run env (signinWithAutofill config) st in
  (outcome r = Returns unsupported_result \/ exists e, outcome r = Throws e)
  /\ final_state r = st
  /\ Forall (fun ev => event_kind ev = KProbe \/ event_kind ev = KConsole) (events r).
Proof.
  intros H. cbv zeta. unfold signinWithAutofill, isAutofillSupported.
  cbn [bind trigger]. rewrite run_Vis. cbn [perform fst snd].
  rewrite after_nil.
  destruct (publicKeyCredential env) as [| |callable [settled|]] eqn:P.
  - cbn. split; [right; eexists; reflexivity | split; [reflexivity | constructor]].
  - cbn. split; [right; eexists; reflexivity | split; [reflexivity | constructor]].
  - rewrite run_bind, run_await.
    cbn [perform fst snd outcome final_state events]. rewrite P.
    destruct settled as [a|e].
    + destruct (negb (truthy a)).
      * cbn. split; [right; eexists; reflexivity | split; [reflexivity|]].
        repeat (apply Forall_cons; [cbn; auto|]). apply Forall_nil.
      * rewrite (signin_unsupported st _ H). cbn.
        split; [left; reflexivity | split; [reflexivity|]].
        repeat (apply Forall_cons; [cbn; auto|]). apply Forall_nil.
    + cbn. split; [right; eexists; reflexivity | split; [reflexivity|]].
      repeat (apply Forall_cons; [cbn; auto|]). apply Forall_nil.
  - cbn. split; [right; eexists; reflexivity | split; [reflexivity | constructor]].
Qed.

(** Both ceremonies start a sign-in by the abort of the current
    controller and the making of a new one, before the request. *)
Lemma signin_starts_by_abort st signinMethod :
  supported env = true ->
  exists rest,
    events (run env (signin config signinMethod) st)
    = EvAbort (abortController st) :: EvNewController (fresh st) :: rest.
Proof.
  intros H. unfold signin.
  rewrite run_try_bind, run_assertBrowserSupported, H.
  cbn [outcome final_state events fst snd]. rewrite after_nil.
  rewrite run_try_bind. cbn - [signinBegin normalize].
  eexists. reflexivity.
Qed.

End Runs.

(* ================================================================= *)
(** * Overlapping sign-ins: what the controller discipline gives *)

Lemma Uses_Disciplined {A} (p : Async A) : Uses plain p -> Disciplined p.
Proof. intros U. induction U; constructor; auto. Qed.

Lemma Disciplined_bind {A B} (p : Async A) (f : A -> Async B) :
  Disciplined p -> (forall a, Disciplined (f a)) -> Disciplined (bind p f).
Proof.
  intros D F. induction D as [a|e|X e k He _ IH|pk med k _ IH|k _ IH]; cbn.
  - apply F.
  - constructor.
  - apply Disc_plain; [exact He | exact IH].
  - apply (Disc_retrieval pk med (fun c x => bind (k c x) f)). exact IH.
  - apply (Disc_replace (fun u => bind (k u) f)). exact IH.
Qed.

Lemma Disciplined_try_catch {A} (p : Async A) h :
  Disciplined p -> (forall e, Disciplined (h e)) -> Disciplined (try_catch p h).
Proof.
  intros D F. induction D as [a|e|X e k He _ IH|pk med k _ IH|k _ IH]; cbn.
  - constructor.
  - apply F.
  - apply Disc_plain; [exact He | exact IH].
  - apply (Disc_retrieval pk med (fun c x => try_catch (k c x) h)). exact IH.
  - apply (Disc_replace (fun u => try_catch (k u) h)). exact IH.
Qed.

Ltac plain_part := apply Uses_Disciplined; unfold plain; parts.

Lemma Disciplined_signin config signinMethod :
  Disciplined (signin config signinMethod).
Proof.
  unfold signin.
  apply Disciplined_try_catch; [|intros; plain_part].
  apply Disciplined_bind; [plain_part | intros _].
  unfold handleAbort, abort. cbn [bind trigger].
  apply (Disc_replace (fun _ => _)). intros _. cbv zeta.
  apply Disciplined_bind; [plain_part | intros signin0].
  apply Disciplined_bind; [plain_part | intros error].
  destruct (truthy error); [constructor|].
  apply Disciplined_bind; [plain_part | intros data].
  apply Disciplined_bind; [plain_part | intros data'].
  apply Disciplined_bind; [plain_part | intros allow].
  apply Disciplined_bind; [plain_part | intros allow'].
  apply Disciplined_bind; [plain_part | intros autofill].
  cbn [bind trigger await].
  apply (Disc_retrieval (fun _ => _) (fun _ => _) (fun c x => _)).
  intros c x.
  apply Disciplined_bind; [plain_part | intros credential].
  apply Disciplined_bind; [plain_part | intros session].
  plain_part.
Qed.

Lemma Disciplined_signinCall config m : Disciplined (signinCall config m).
Proof.
  destruct m as [[userId|alias| |]|]; try apply Disciplined_signin.
  cbn [signinCall signinWith]. unfold signinWithAutofill.
  apply Disciplined_bind; [plain_part | intros supported].
  destruct (negb (truthy supported)); [constructor | apply Disciplined_signin].
Qed.

Lemma moves_on_refl st : moves_on st st.
Proof. split; [auto | left; reflexivity]. Qed.

Lemma moves_on_trans st1 st2 st3 :
  moves_on st1 st2 -> moves_on st2 st3 -> moves_on st1 st3.
Proof.
  intros [A1 C1] [A2 C2]. split; [auto|].
  destruct C1 as [E|E].
  - rewrite E. exact C2.
  - right. apply A2, E.
Qed.

Lemma current_or_aborted_moves st st' c :
  moves_on st st' -> current_or_aborted st c -> current_or_aborted st' c.
Proof.
  intros [A C] [E|E].
  - rewrite E. exact C.
  - right. apply A, E.
Qed.

Lemma task_ok_moves st st' t : moves_on st st' -> task_ok st t -> task_ok st' t.
Proof.
  intros M. destruct t as [X e k|r]; [|auto].
  intros [Aw [D S]]. split; [exact Aw|]. split; [exact D|].
  destruct (armed_signal (Pending e k)); [|exact I].
  eapply current_or_aborted_moves; eassumption.
Qed.

(** An effect that touches neither the field nor the authenticator's
    retrieval leaves the state as it is. *)
Lemma perform_plain env {X} (e : Effect X) st :
  plain (effect_kind e) -> snd (fst (perform env e st)) = st.
Proof.
  unfold plain. destruct e; cbn; intros [K G]; try reflexivity;
    exfalso; apply K; reflexivity.
Qed.

Lemma perform_awaited env {X} (e : Effect X) st :
  awaited e = true -> snd (fst (perform env e st)) = st.
Proof. destruct e; cbn; intros H; try reflexivity; discriminate H. Qed.

Lemma armed_plain {X} (e : Effect X) k :
  plain (effect_kind e) -> armed_signal (Pending e k) = None.
Proof.
  unfold plain. destruct e; cbn; intros [K G]; try reflexivity.
  exfalso. apply G. reflexivity.
Qed.

(** A disciplined program runs to its next [await] as a task that is in
    order, in a state the old one has moved on to. *)
Lemma advance_disciplined env (p : Async JsValue) st :
  Disciplined p ->
  task_ok (snd (fst (advance env p st))) (fst (fst (advance env p st)))
  /\ moves_on st (snd (fst (advance env p st))).
Proof.
  intros D. revert st.
  induction D as [a|e|X e k He Dk IH|pk med k Dk IH|k Dk IH]; intros st.
  - cbn. split; [exact I | apply moves_on_refl].
  - cbn. split; [exact I | apply moves_on_refl].
  - cbn [advance]. destruct (awaited e) eqn:Aw.
    + cbn [fst snd]. split; [|apply moves_on_refl].
      unfold task_ok. split; [exact Aw|]. split; [exact Dk|].
      rewrite (armed_plain e k He). exact I.
    + pose proof (perform_plain env e st He) as P.
      destruct (perform env e st) as [[x st1] evs]. cbn in P. subst st1.
      specialize (IH x st).
      destruct (advance env (k x) st) as [[t st2] evs']. exact IH.
  - cbn. split; [|apply moves_on_refl].
    split; [reflexivity|]. split; [apply Dk|]. left. reflexivity.
  - cbn [advance awaited perform abortController aborted fresh].
    match goal with |- context [advance env (k tt) ?s] => set (st1 := s) end.
    specialize (IH tt st1).
    destruct (advance env (k tt) st1) as [[t st2] evs'] eqn:Adv.
    cbn [fst snd] in *. destruct IH as [T M].
    split; [exact T|].
    apply moves_on_trans with (st2 := st1); [|exact M].
    split.
    + intros c H. unfold is_aborted in *. cbn.
      rewrite H. apply orb_true_r.
    + right. unfold is_aborted. cbn. rewrite Nat.eqb_refl. reflexivity.
Qed.

Section Schedules.

Variable env : Env.

Lemma call_in_order (p : Async JsValue) s :
  Disciplined p -> in_order s -> in_order (call env p s).
Proof.
  intros D O. unfold in_order, call in *.
  pose proof (advance_disciplined env p (client s) D) as [T M].
  destruct (advance env p (client s)) as [[t st] evs]. cbn [fst snd] in *.
  cbn [client tasks]. apply Forall_app. split.
  - eapply Forall_impl; [|exact O]. intros t'. apply task_ok_moves, M.
  - constructor; [exact T | constructor].
Qed.

Lemma Forall_replace_nth {A} (P : A -> Prop) i x l :
  Forall P l -> P x -> Forall P (replace_nth i x l).
Proof.
  intros F Hx. revert i. induction F as [|y r Hy Hr IH]; intros i.
  - destruct i; constructor.
  - destruct i; cbn [replace_nth]; constructor; auto.
Qed.

Lemma resume_in_order i s : in_order s -> in_order (resume env i s).
Proof.
  intros O. unfold resume.
  destruct (nth_error (tasks s) i) as [[X e k|r]|] eqn:N; try exact O.
  assert (T : task_ok (client s) (Pending e k)).
  { unfold in_order in O. rewrite Forall_forall in O.
    apply O. eapply nth_error_In, N. }
  destruct T as [Aw [D _]].
  pose proof (perform_awaited env e (client s) Aw) as P.
  destruct (perform env e (client s)) as [[x st1] evs]. cbn in P. subst st1.
  pose proof (advance_disciplined env (k x) (client s) (D x)) as [T M].
  destruct (advance env (k x) (client s)) as [[t st2] evs']. cbn [fst snd] in *.
  unfold in_order. cbn [client tasks].
  apply Forall_replace_nth; [|exact T].
  eapply Forall_impl; [|exact O]. intros t'. apply task_ok_moves, M.
Qed.

Lemma reachable_in_order config s : Reachable env config s -> in_order s.
Proof.
  induction 1 as [|m s _ IH|i s _ IH].
  - constructor.
  - apply call_in_order; [apply Disciplined_signinCall | exact IH].
  - apply resume_in_order, IH.
Qed.

Lemma in_order_armed s :
  in_order s -> Forall (current_or_aborted (client s)) (armed_signals s).
Proof.
  unfold in_order, armed_signals. intros O.
  induction O as [|t r Ht _ IH]; cbn [flat_map]; [constructor|].
  apply Forall_app. split; [|exact IH].
  destruct t as [X e k|res]; [|constructor].
  destruct Ht as [_ [_ S]].
  destruct (armed_signal (Pending e k)); constructor; [exact S | constructor].
Qed.

(** In every state one client can reach, a retrieval that is armed with
    a live signal holds the signal of the current controller. *)
Lemma live_retrievals_hold_current_signal config s :
  Reachable env config s ->
  Forall (fun c => c = abortController (client s)) (live_retrievals s).
Proof.
  intros R. pose proof (in_order_armed s (reachable_in_order config s R)) as A.
  unfold live_retrievals. fold (armed_signals s).
  induction A as [|c r Hc _ IH]; cbn [filter]; [constructor|].
  destruct (is_aborted c (client s)) eqn:E; cbn [negb]; [exact IH|].
  constructor; [|exact IH].
  destruct Hc as [Hc|Hc]; [exact Hc | congruence].
Qed.

(** What [signin] does up to its first [await], with WebAuthn: the
    current controller is aborted and replaced, and the task that is
    left has armed no retrieval. *)
Lemma advance_signin config signinMethod st :
  supported env = true ->
  snd (fst (advance env (signin config signinMethod) st))
    = {| abortController := fresh st;
         aborted := abortController st :: aborted st;
         fresh := S (fresh st) |}
  /\ armed_signal (fst (fst (advance env (signin config signinMethod) st))) = None.
Proof.
  intros H. unfold signin, assertBrowserSupported, isBrowserSupported,
    handleAbort, abort, signinBegin, post.
  unfold supported in H.
  cbn [advance bind try_catch trigger awaited perform fst snd
       abortController aborted fresh app].
  destruct (publicKeyCredential env) as [| |[|] ?]; try discriminate H.
  cbn [negb bind try_catch advance awaited perform abortController aborted fresh].
  destruct (signinBeginPayload config _) as [payload|e];
    cbn [lift bind try_catch advance].
  - destruct (JSON_stringify payload) as [text|e];
      cbn [lift bind try_catch advance await awaited].
    + split; reflexivity.
    + destruct (run_normalize env e st) as [title [G _]].
      unfold normalize. rewrite G. cbn. split; reflexivity.
  - destruct (run_normalize env e st) as [title [G _]].
    unfold normalize. rewrite G. cbn. split; reflexivity.
Qed.

(** A sign-in that starts cancels every retrieval pending at that
    moment: right after the call, no retrieval is armed with a live
    signal. *)
Lemma new_signin_cancels_pending_retrievals config signinMethod s :
  Reachable env config s ->
  supported env = true ->
  live_retrievals (call env (signin config signinMethod) s) = [].
Proof.
  intros R H.
  pose proof (in_order_armed s (reachable_in_order config s R)) as A.
  destruct (advance_signin config signinMethod (client s) H) as [S N].
  unfold live_retrievals, call.
  destruct (advance env (signin config signinMethod) (client s)) as [[t st] evs].
  cbn [fst snd client tasks] in *. subst st.
  rewrite flat_map_app. cbn [flat_map]. rewrite N. cbn [app].
  rewrite app_nil_r. fold (armed_signals s).
  induction A as [|c r Hc _ IH]; cbn [filter]; [reflexivity|].
  assert (E : is_aborted c
                {| abortController := fresh (client s);
                   aborted := abortController (client s) :: aborted (client s);
                   fresh := S (fresh (client s)) |} = true).
  { destruct Hc as [Hc|Hc]; unfold is_aborted in *; cbn [aborted existsb].
    - rewrite Hc, Nat.eqb_refl. reflexivity.
    - rewrite Hc. apply orb_true_r. }
  rewrite E. exact IH.
Qed.

End Schedules.

(* ================================================================= *)
(** * The specification, property by property *)

Lemma lookup_put_same k v props : lookup k (put k v props) = Some v.
Proof.
  induction props as [|[k' v'] r IH]; simpl.
  - rewrite String.eqb_refl. reflexivity.
  - destruct (String.eqb k k') eqn:E; simpl; rewrite ?String.eqb_refl; [reflexivity|].
    rewrite E. exact IH.
Qed.

Lemma lookup_put_other k k' v props :
  k' <> k -> lookup k' (put k v props) = lookup k' props.
Proof.
  intros N. induction props as [|[k0 v0] r IH]; simpl.
  - destruct (String.eqb k' k) eqn:E; [|reflexivity].
    apply String.eqb_eq in E. contradiction.
  - destruct (String.eqb k k0) eqn:E; simpl.
    + apply String.eqb_eq in E. subst k0.
      destruct (String.eqb k' k) eqn:E'; [|reflexivity].
      apply String.eqb_eq in E'. contradiction.
    + rewrite IH. reflexivity.
Qed.

(** C1, as the code has it. In a page without WebAuthn no ceremony
    throws the unsupported failure to its caller: [register] and
    [signin] (the body of every sign-in entry point) catch it and
    resolve to the client error "unknown" whose title is the unsupported
    message, having issued no request and called no authenticator; and
    no sign-in entry point, [signinWithAutofill] with its probe
    included, issues a request or calls the authenticator. *)
Theorem unsupported_environment_is_reported (env : Env) (config : Config)
    (st : ClientState) (token nickname : string) (signinMethod : JsValue)
    (m : option SigninMethod) :
  supported env = false ->
  run env (register config token nickname) st
    = (Returns unsupported_result, st, unsupported_events)
  /\ run env (signin config signinMethod) st
     = (Returns unsupported_result, st, unsupported_events)
  /\ (m <> Some Autofill ->
      run env (signinCall config m) st
        = (Returns unsupported_result, st, unsupported_events))
  /\ ((outcome (run env (signinCall config m) st) = Returns unsupported_result
       \/ exists e, outcome (run env (signinCall config m) st) = Throws e)
      /\ final_state (run env (signinCall config m) st) = st
      /\ Forall (fun ev => event_kind ev = KProbe \/ event_kind ev = KConsole)
           (events (run env (signinCall config m) st))).
Proof.
  intros H.
  assert (S : forall v, run env (signin config v) st
                        = (Returns unsupported_result, st, unsupported_events))
    by (intros v; apply signin_unsupported, H).
  split; [apply register_unsupported, H|]. split; [apply S|]. split.
  - destruct m as [[userId|alias| |]|]; intros N; try apply S.
    exfalso. apply N. reflexivity.
  - destruct m as [[userId|alias| |]|];
      try (cbn [signinCall signinWith];
           unfold signinWithId, signinWithAlias, signinWithDiscoverable;
           rewrite S; cbn;
           split; [left; reflexivity | split; [reflexivity|]];
           repeat (apply Forall_cons; [cbn; auto|]); apply Forall_nil).
    apply (signinWithAutofill_unsupported env config st H).
Qed.

Lemma unsupported_environment_is_reported_witness :
  run unsupported_env (register example_config "tok1" "my-key") new_client
  = (Returns unsupported_result, new_client, unsupported_events).
Proof.
  exact (proj1 (unsupported_environment_is_reported unsupported_env example_config
                  new_client "tok1" "my-key" JUndefined (Some Discoverable) eq_refl)).
Defined.

(** C1, as stated, fails: [register] in a page without WebAuthn does not
    throw, it resolves to an error result. *)
Lemma register_unsupported_does_not_throw :
  supported unsupported_env = false
  /\ outcome (run unsupported_env (register example_config "tok1" "my-key") new_client)
     = Returns unsupported_result
  /\ ~ (exists e,
           outcome (run unsupported_env (register example_config "tok1" "my-key")
                      new_client) = Throws e).
Proof.
  split; [reflexivity|]. split; [reflexivity|].
  intros [e H]. discriminate H.
Qed.

(** C5. Whatever sign-in call sends a request to /signin/begin, the body
    is the serialization of an object whose [userId] and [alias] are
    fixed by the selector: the user id and undefined for a user-id
    selector, undefined and the alias for an alias selector, both
    undefined for a discoverable, an autofill and an absent selector;
    so at most one of the two is ever defined. *)
Theorem signin_request_selector (env : Env) (config : Config) (st : ClientState)
    (m : option SigninMethod) (init : RequestInit) (answer : Completion Response) :
  In (EvFetch (apiUrl config ++ "/signin/begin") init answer)
     (events (run env (signinCall config m) st)) ->
  exists userId alias,
    JSON_stringify (JObj [("userId", userId);
                          ("alias", alias);
                          ("RPID", JStr (rpid config));
                          ("Origin", JStr (origin config))])
    = Returns (body init)
    /\ (userId, alias)
       = match m with
         | Some (ByUserId u) => (JStr u, JUndefined)
         | Some (ByAlias a) => (JUndefined, JStr a)
         | Some Autofill | Some Discoverable | None => (JUndefined, JUndefined)
         end
    /\ (userId = JUndefined \/ alias = JUndefined).
Proof.
  intros Hin.
  destruct (begin_request_case_call env config st m init answer Hin) as [P _].
  exists (expected_userId m), (expected_alias m).
  split; [exact P|].
  destruct m as [[u|a| |]|]; cbn; auto.
Qed.

Lemma signin_request_selector_witness :
  exists userId alias,
    JSON_stringify (JObj [("userId", userId);
                          ("alias", alias);
                          ("RPID", JStr "example.com");
                          ("Origin", JStr "https://example.com")])
    = JSON_stringify (JObj [("userId", JStr "u1");
                            ("RPID", JStr "example.com");
                            ("Origin", JStr "https://example.com")])
    /\ (userId, alias) = (JStr "u1", JUndefined)
    /\ (userId = JUndefined \/ alias = JUndefined).
Proof.
  apply (signin_request_selector example_env example_config new_client
           (Some (ByUserId "u1"))
           (request example_config
              match JSON_stringify (signin_payload example_config (Some (ByUserId "u1"))) with
              | Returns text => text
              | Throws _ => JUndefined
              end)
           (Returns {| ok := true; json := Returns signin_options |})).
  vm_compute. right. right. left. reflexivity.
Defined.

(** C6. When /register/begin answers with a status that is not a success
    and a body E, [register] resolves to [{error: {...E, from:
    "server"}}]: the fields of E other than [from] are kept as they
    are, [from] is "server", and the authenticator is never called. *)
Theorem register_begin_server_error (env : Env) (config : Config)
    (st : ClientState) (token nickname : string) (init : RequestInit)
    (response : Response) (E : JsValue) :
  In (EvFetch (apiUrl config ++ "/register/begin") init (Returns response))
     (events (run env (register config token nickname) st)) ->
  ok response = false ->
  json response = Returns E ->
  outcome (run env (register config token nickname) st)
    = Returns (JObj [("error", spread_with E "from" (JStr "server"))])
  /\ own_prop (spread_with E "from" (JStr "server")) "from" = Some (JStr "server")
  /\ (forall k, k <> "from" ->
        own_prop (spread_with E "from" (JStr "server")) k = lookup k (own_props E))
  /\ Forall (fun ev => event_kind ev <> KCreate /\ event_kind ev <> KGet)
       (events (run env (register config token nickname) st)).
Proof.
  intros Hin Hok Hjson.
  destruct (begin_error_case env config st token nickname init response E
              Hok Hjson Hin) as [O C].
  split; [exact O|]. split; [apply lookup_put_same|]. split; [|exact C].
  intros k N. apply lookup_put_other, N.
Qed.

Lemma register_begin_server_error_witness :
  outcome (run invalid_token_env (register example_config "tok1" "my-key") new_client)
  = Returns (JObj [("error", JObj [("errorCode", JStr "invalid_token");
                                   ("from", JStr "server")])]).
Proof.
  refine (proj1 (register_begin_server_error invalid_token_env example_config
                   new_client "tok1" "my-key"
                   (request example_config
                      match JSON_stringify
                              (JObj [("token", JStr "tok1");
                                     ("RPID", JStr "example.com");
                                     ("Origin", JStr "https://example.com")]) with
                      | Returns text => text
                      | Throws _ => JUndefined
                      end)
                   invalid_token_response
                   (JObj [("errorCode", JStr "invalid_token")]) _ eq_refl eq_refl)).
  vm_compute. left. reflexivity.
Defined.

(** C7. When the authenticator's credential creation resolves to null,
    [register] resolves to the client error [failed_create_credential]
    and /register/complete is never called. *)
Theorem register_create_null (env : Env) (config : Config) (st : ClientState)
    (token nickname : string) (publicKey : JsValue) :
  In (EvCreate publicKey (Returns JNull))
     (events (run env (register config token nickname) st)) ->
  outcome (run env (register config token nickname) st)
    = Returns (JObj [("error",
                      JObj [("from", JStr "client");
                            ("errorCode", JStr "failed_create_credential");
                            ("title", JStr "Failed to create credential (navigator.credentials.create returned null)")])])
  /\ Forall (fun ev => event_kind ev <> KFetch (apiUrl config ++ "/register/complete"))
       (events (run env (register config token nickname) st)).
Proof.
  apply (create_null_case env config st token nickname publicKey).
Qed.

Lemma register_create_null_witness :
  outcome (run null_authenticator_env (register example_config "tok1" "my-key")
             new_client)
  = Returns (JObj [("error", failed_create_credential)]).
Proof.
  refine (proj1 (register_create_null null_authenticator_env example_config
                   new_client "tok1" "my-key"
                   (JObj [("challenge", JUint8Array (bytes_of_string "hi"));
                          ("user", JObj [("id", JUint8Array (bytes_of_string "u1"));
                                         ("name", JStr "u1")]);
                          ("excludeCredentials",
                           JArr [JObj [("id", JUint8Array [x01]);
                                       ("type", JStr "public-key")]])]) _)).
  vm_compute. right. right. left. reflexivity.
Defined.

(** C8: two sign-ins that overlap before the first has called the
    authenticator.  [signin] reads [this.abortController] only when it
    calls the authenticator, after the awaits of [signinBegin]; by then
    the sign-in by user id has replaced the controller.  Both
    retrievals are armed with the signal of controller 2, which is not
    aborted, and the controller the autofill sign-in made (1) is the
    aborted one.  What holds in every schedule is
    [live_retrievals_hold_current_signal] and
    [new_signin_cancels_pending_retrievals]; that at most one retrieval
    is live does not. *)
Theorem overlapping_signins_share_a_live_signal :
  map armed_signal (tasks overlapping_signins) = [Some 2; Some 2]
  /\ map armed_mediation (tasks overlapping_signins)
     = [Some (JStr "conditional"); Some JUndefined]
  /\ aborted (client overlapping_signins) = [1; 0]
  /\ abortController (client overlapping_signins) = 2
  /\ live_retrievals overlapping_signins = [2; 2].
Proof. repeat split; reflexivity. Qed.

(** When the first sign-in is already pending at the authenticator, the
    start of the second does cancel it: resumed, it resolves to the
    client error of the abort. *)
Example superseded_signin_is_cancelled :
  map settled (tasks superseded_signin)
  = [Some (Returns (JObj [("error", unknown_error "signal is aborted without reason")]));
     None]
  /\ live_retrievals superseded_signin = [].
Proof. split; reflexivity. Qed.

(** C9, as the code has it. The normalizer never throws, and the title
    of the error is: the value's own string [message] when it has one;
    otherwise the text of [JSON.stringify] when it gives a text, the
    empty text when it gives undefined, and [String] of the value when
    it throws.  The catch block logs the caught value and the error and
    resolves to [{error: {from: "client", errorCode: "unknown", title}}]. *)
Theorem normalizer_message (v : JsValue) (env : Env) (st : ClientState) :
  (forall e, toErrorWithMessage v <> Throws e)
  /\ getErrorMessage v
     = Returns (JStr match message_field v with
                     | Some message => message
                     | None =>
                         match stringify v with
                         | Returns (Some text) => text
                         | Returns None => EmptyString
                         | Throws _ => ToString v
                         end
                     end)
  /\ exists title,
       getErrorMessage v = Returns (JStr title)
       /\ run env (normalize v) st
          = (Returns (JObj [("error", JObj [("from", JStr "client");
                                            ("errorCode", JStr "unknown");
                                            ("title", JStr title)])]),
             st,
             [EvConsoleError [v];
              EvConsoleError [JObj [("from", JStr "client");
                                    ("errorCode", JStr "unknown");
                                    ("title", JStr title)]]]).
Proof.
  split; [|split].
  - intros e. unfold toErrorWithMessage. rewrite isErrorWithMessage_field.
    destruct (message_field v); [discriminate|].
    destruct (JSON_stringify v); discriminate.
  - apply getErrorMessage_value.
  - apply run_normalize.
Qed.

(** C9, as stated, fails on a thrown [undefined]: its serialization is
    no text and does not throw, so the policy of the specification falls
    back on the string conversion, "undefined", and the code gives the
    empty title. *)
Lemma normalizer_undefined_title :
  getErrorMessage JUndefined = Returns (JStr EmptyString)
  /\ policy_message JUndefined = "undefined"
  /\ getErrorMessage JUndefined <> Returns (JStr (policy_message JUndefined)).
Proof. repeat split; try reflexivity. discriminate. Qed.

(** The three kinds of value the specification names. *)
Example normalizer_examples :
  getErrorMessage (TypeError "Failed to fetch") = Returns (JStr "Failed to fetch")
  /\ getErrorMessage (JObj [("code", JNum 7)])
     = Returns (JStr ("{" ++ json_quote "code" ++ ":7}"))
  /\ getErrorMessage (JObj [("self", JCycle 0)]) = Returns (JStr "[object Object]")
  /\ getErrorMessage (JBigInt 10) = Returns (JStr "10").
Proof. repeat split; reflexivity. Qed.

(** C10. Sign-in has no null check: when the authenticator's retrieval
    resolves to null, any sign-in call resolves to the client error
    "unknown" of the TypeError thrown on reading [response] of null, and
    /signin/complete is never called. *)
Theorem signin_retrieval_null (env : Env) (config : Config) (st : ClientState)
    (m : option SigninMethod) (publicKey mediation : JsValue)
    (signal : ControllerId) :
  In (EvGet publicKey mediation signal (Returns JNull))
     (events (run env (signinCall config m) st)) ->
  outcome (run env (signinCall config m) st)
    = Returns (JObj [("error",
                      JObj [("from", JStr "client");
                            ("errorCode", JStr "unknown");
                            ("title", JStr "Cannot read properties of null (reading 'response')")])])
  /\ Forall (fun ev => event_kind ev <> KFetch (apiUrl config ++ "/signin/complete"))
       (events (run env (signinCall config m) st)).
Proof.
  apply (get_null_case_call env config st m publicKey mediation signal).
Qed.

Lemma signin_retrieval_null_witness :
  outcome (run null_authenticator_env (signinWithAlias example_config "a1") new_client)
  = Returns (JObj [("error", unknown_error null_response_msg)]).
Proof.
  refine (proj1 (signin_retrieval_null null_authenticator_env example_config
                   new_client (Some (ByAlias "a1"))
                   (JObj [("challenge", JUint8Array (bytes_of_string "hi"));
                          ("allowCredentials", JArr [])])
                   JUndefined 1 _)).
  vm_compute. do 4 right. left. reflexivity.
Defined.
